(** * protoc-gen-rain: the descriptor wrapper, the name resolver and the
    HTTP route emitter, embedded in Rocq.

    The development follows [generator/generator.go],
    [generator/descriptor.go], [generator/descriptor_file.go] and [main.go].
    Go strings are byte strings ([string]); Go maps are [gmap]s; slices
    are lists; a pointer into a slice is the position it points at.
    [os.Exit] after a logged message is the [Exit] result, which keeps the
    generator state reached at that moment. *)

From Stdlib Require Import ZArith Ascii String List.
From stdpp Require Import base option list gmap strings pretty.

Local Open Scope stdpp_scope.

(** ** Go's [strings] and [path] functions used by the generator

    Separators are always one byte long in the generator, so they are
    passed as an [ascii]. *)

Fixpoint str_take (n : nat) (s : string) : string :=
  match n, s with
  | S n', String c r => String c (str_take n' r)
  | _, _ => ""
  end.

Fixpoint str_drop (n : nat) (s : string) : string :=
  match n, s with
  | S n', String _ r => str_drop n' r
  | _, _ => s
  end.

(** [strings.Index(s, sep)]: [None] stands for the result [-1]. *)
Fixpoint strings_Index (s : string) (sep : ascii) : option nat :=
  match s with
  | "" => None
  | String c r => if decide (c = sep) then Some 0%nat else S <$> strings_Index r sep
  end.

(** [strings.LastIndex(s, sep)]. *)
Fixpoint strings_LastIndex (s : string) (sep : ascii) : option nat :=
  match s with
  | "" => None
  | String c r =>
      match strings_LastIndex r sep with
      | Some i => Some (S i)
      | None => if decide (c = sep) then Some 0%nat else None
      end
  end.

(** [strings.Split(s, sep)]: never empty, [Split("", sep) = [""]]. *)
Fixpoint strings_Split (s : string) (sep : ascii) : list string :=
  match s with
  | "" => [""]
  | String c r =>
      if decide (c = sep) then "" :: strings_Split r sep
      else match strings_Split r sep with
           | h :: t => String c h :: t
           | [] => [String c ""]
           end
  end.

(** [strings.Join(l, sep)]. *)
Fixpoint strings_Join (l : list string) (sep : string) : string :=
  match l with
  | [] => ""
  | [x] => x
  | x :: r => x +:+ sep +:+ strings_Join r sep
  end.

Fixpoint strings_HasPrefix (s p : string) : bool :=
  match p, s with
  | "", _ => true
  | String a p', String b s' => if decide (a = b) then strings_HasPrefix s' p' else false
  | String _ _, "" => false
  end.

Definition strings_TrimPrefix (s p : string) : string :=
  if strings_HasPrefix s p then str_drop (String.length p) s else s.

Definition strings_HasSuffix (s p : string) : bool :=
  strings_HasPrefix (String.rev s) (String.rev p).

Definition strings_TrimSuffix (s p : string) : string :=
  if strings_HasSuffix s p then str_take (String.length s - String.length p) s else s.

(** [strings.Contains(s, substr)]. *)
Fixpoint strings_Contains (s sub : string) : bool :=
  strings_HasPrefix s sub ||
  match s with
  | "" => false
  | String _ r => strings_Contains r sub
  end.

(** The double quote and the line feed, and a quoted string. *)
Definition dq : string := String (ascii_of_nat 34) "".
Definition lf : ascii := ascii_of_nat 10.
Definition quoted (s : string) : string := dq +:+ s +:+ dq.

(** [strings.Trim(s, " ")]. *)
Fixpoint trim_left (s : string) : string :=
  match s with
  | String c r => if decide (c = " "%char) then trim_left r else s
  | "" => ""
  end.

Definition strings_Trim (s : string) : string :=
  String.rev (trim_left (String.rev (trim_left s))).

(** [path.Ext]: the suffix beginning at the final dot of the final
    slash-separated element, or [""]. *)
Definition path_Ext (name : string) : string :=
  let last := List.last (strings_Split name "/"%char) "" in
  match strings_LastIndex last "."%char with
  | Some i => str_drop i last
  | None => ""
  end.

(** [strconv.Itoa] on a non-negative counter. *)
Definition strconv_Itoa (i : nat) : string := pretty i.

(** ** The protobuf descriptors that the compiler hands to the plugin

    Optional fields ([*string]) are [option]s; the [Get...] accessors
    return the zero value when a field is unset. *)

Inductive FieldDescriptorProto_Type :=
  | TYPE_DOUBLE | TYPE_FLOAT | TYPE_INT64 | TYPE_UINT64 | TYPE_INT32
  | TYPE_FIXED64 | TYPE_FIXED32 | TYPE_BOOL | TYPE_STRING | TYPE_GROUP
  | TYPE_MESSAGE | TYPE_BYTES | TYPE_UINT32 | TYPE_ENUM | TYPE_SFIXED32
  | TYPE_SFIXED64 | TYPE_SINT32 | TYPE_SINT64.

Global Instance FieldDescriptorProto_Type_eq_dec : EqDecision FieldDescriptorProto_Type.
Proof. solve_decision. Defined.

Record FieldDescriptorProto := {
  fp_Name : option string;
  fp_Type : FieldDescriptorProto_Type;
  fp_TypeName : option string;
}.

Record EnumDescriptorProto := {
  ep_Name : option string;
  ep_Value : list (string * Z);
}.

#[warnings="-register-all"] Inductive DescriptorProto := Build_DescriptorProto {
  dp_Name : option string;
  dp_Field : list FieldDescriptorProto;
  dp_NestedType : list DescriptorProto;
  dp_EnumType : list EnumDescriptorProto;
  dp_Extension : list FieldDescriptorProto;
  dp_MapEntry : bool;            (* GetOptions().GetMapEntry() *)
}.

(** The [pattern] oneof of [google.api.HttpRule]. *)
Inductive HttpRule_Pattern :=
  | HttpRule_None
  | HttpRule_Get (url : string)
  | HttpRule_Put (url : string)
  | HttpRule_Post (url : string)
  | HttpRule_Delete (url : string)
  | HttpRule_Patch (url : string)
  | HttpRule_Custom (kind url : string).

Record HttpRule := {
  Pattern : HttpRule_Pattern;
  ResponseBody : string;
}.

(** [MethodOptions] with its [google.api.http] extension, when set. *)
Record MethodOptions := {
  E_Http : option HttpRule;
}.

Record MethodDescriptorProto := {
  mp_Name : option string;
  mp_InputType : option string;
  mp_OutputType : option string;
  mp_Options : option MethodOptions;
}.

Record ServiceDescriptorProto := {
  sp_Name : option string;
  sp_Method : list MethodDescriptorProto;
}.

Record SourceCodeInfo_Location := {
  loc_Path : list Z;
  loc_LeadingComments : option string;
}.

Record FileDescriptorProto := {
  Name : option string;
  Package : option string;
  Dependency : list string;
  PublicDependency : list Z;
  WeakDependency : list Z;
  MessageType : list DescriptorProto;
  EnumType : list EnumDescriptorProto;
  Service : list ServiceDescriptorProto;
  Extension : list FieldDescriptorProto;
  GoPackage : option string;     (* Options.go_package *)
  SourceCodeInfo : list SourceCodeInfo_Location;
  Syntax : option string;
}.

Definition GetString (o : option string) : string := default "" o.

Record CodeGeneratorRequest := {
  FileToGenerate : list string;
  Parameter_ : option string;    (* Parameter *)
  ProtoFile : list FileDescriptorProto;
}.

Record CodeGeneratorResponse_File := {
  rf_Name : string;
  rf_Content : string;
}.

(** ** Helpers and constants of the package that live outside the files
    modelled here

    [CamelCase], [CamelCaseSlice], [cleanPackageName], [baseName],
    [dottedSlice] and the source-path constants are declared in another
    file of package [generator]; [path.Dir], [filepath.Dir],
    [encoding/json], the compiled [regAnnotation] expression and the
    Unicode case mapping of [strings.ToLower] and [strings.EqualFold]
    belong to Go's library. The model takes them as given. *)

Definition GoImportPath := string.
Definition GoPackageName := string.

Class Externals := {
  CamelCase : string → string;
  CamelCaseSlice : list string → string;
  cleanPackageName : string → GoPackageName;
  baseName : string → string;
  dottedSlice : list string → string;
  messagePath : nat;
  messageMessagePath : nat;
  enumPath : nat;
  messageEnumPath : nat;
  path_Dir : string → string;
  filepath_Dir : string → string;
  (* json.Unmarshal into a map[string]string; None is a decoding error *)
  json_Unmarshal : string → option (gmap string string);
  json_Marshal : gmap string string → string;
  (* regAnnotation.FindStringSubmatch *)
  regAnnotation_FindStringSubmatch : string → list string;
  strings_ToLower : string → string;
  strings_EqualFold : string → string → bool;
}.

(** ** The wrapped descriptors ([descriptor.go], [descriptor_file.go])

    [common] holds the [*FileDescriptor] an object comes from: the
    position of that file in [allFiles], together with the parts of the
    file that are fixed once it is created (its proto and import path). *)

Record common := {
  c_file : nat;
  c_proto : FileDescriptorProto;
  c_importPath : GoImportPath;
}.

(** A [*Descriptor] created by [newDescriptor]. [d_addr] is the position
    of the descriptor in its file's [desc] slice, which identifies the
    pointer; [nested] and [enums] hold the positions of the children. *)
#[warnings="-register-all"] Inductive Descriptor := Build_Descriptor {
  d_common : common;
  d_proto : DescriptorProto;
  d_parent : option Descriptor;   (* The containing message, if any. *)
  nested : list nat;              (* Inner messages, if any. *)
  enums : list nat;               (* Inner enums, if any. *)
  d_ext : list FieldDescriptorProto; (* Extensions, if any; each with this message as parent. *)
  d_index : nat;                  (* The index into the container. *)
  d_path : string;                (* The SourceCodeInfo path as comma-separated integers. *)
  group : bool;
  d_addr : nat;
}.

Record EnumDescriptor := {
  e_common : common;
  e_proto : EnumDescriptorProto;
  e_parent : option Descriptor;   (* The containing message, if any. *)
  e_index : nat;
  e_path : string;
  e_addr : nat;                   (* position in the file's enum slice *)
}.

Record ExtensionDescriptor := {
  x_common : common;
  x_field : FieldDescriptorProto;
  x_parent : option Descriptor;
}.

(** The values stored behind the [Object] interface. *)
Inductive Object :=
  | ObjDescriptor (d : Descriptor)
  | ObjEnum (e : EnumDescriptor)
  | ObjExtension (x : ExtensionDescriptor).

Record ImportedDescriptor := {
  i_common : common;
  o : Object;
}.

Record FileDescriptor := {
  fd_proto : FileDescriptorProto;
  desc : list Descriptor;          (* All the messages defined in this file. *)
  enum : list EnumDescriptor;      (* All the enums defined in this file. *)
  ext : list ExtensionDescriptor;  (* All the top-level extensions defined in this file. *)
  imp : list ImportedDescriptor;   (* All types defined in files publicly imported by this file. *)
  comments : gmap string SourceCodeInfo_Location;
  importPath : GoImportPath;       (* Import path of this file's package. *)
  packageName : GoPackageName;     (* Name of this file's Go package. *)
  proto3 : bool;
}.

Inductive pathType := pathTypeImport | pathTypeSourceRelative.

(** ** Fatal exits

    Every [g.Fail] (and [g.Error]) of the modelled code, by the message it
    logs before [os.Exit(1)]; [Panic] is a Go run-time panic (an index out
    of range or a nil dereference). *)
Inductive Fatal :=
  | Fail_NoFilesToGenerate             (* "no files to generate" *)
  | Fail_UnknownPathType (v : string)  (* "Unknown path type %q: want ..." *)
  | Fail_InconsistentImportPaths (a b : GoImportPath)
                                       (* "inconsistent package import paths: %v, %v" *)
  | Fail_InconsistentPackageNames (a b : GoPackageName)
                                       (* "inconsistent package names: %v, %v" *)
  | Fail_FileNotFound (fileName : string)   (* "could not find file named" *)
  | Fail_NestingFailure (name : string)     (* "internal error: nesting failure for" *)
  | Fail_EnumNestingFailure (name : string) (* "internal error: enum nesting failure for" *)
  | Fail_ObjectNotFound (typeName : string) (* "can't find object with type" *)
  | Fail_HttpOptionNotFound            (* "option google.api.http not found" *)
  | Fail_HandlerFileNotFound           (* "handler.json file not found" *)
  | Fail_HandlerContentError           (* "handler.json file content error" *)
  | Panic (what : string).

(** ** The generator *)

Record Generator := {
  Buffer : list string;  (* the P records written so far, oldest first *)
  Request : CodeGeneratorRequest;  (* The input. *)
  Response : list CodeGeneratorResponse_File;  (* The output (Response.File). *)
  Param : gmap string string;  (* Command-line parameters. *)
  PackageImportPath : string;  (* Go import path of the package we're generating code for *)
  ImportPrefix : string;  (* String to prefix to imported package file names. *)
  ImportMap : gmap string string;  (* Mapping from .proto file name to import path *)
  Pkg : gmap string string;  (* The names under which we import support packages *)
  outputImportPath : GoImportPath;  (* Package we're generating code for. *)
  allFiles : list FileDescriptor;  (* All files in the tree *)
  allFilesByName : gmap string nat;  (* All files by filename (positions in allFiles). *)
  genFiles : list nat;  (* Those files we will generate output for (positions in allFiles). *)
  g_file : option nat;  (* The file we are compiling now (file). *)
  packageNames : gmap GoImportPath GoPackageName;  (* Imported package names in the current file. *)
  usedPackages : gmap GoImportPath bool;  (* Packages used in current file. *)
  usedPackageNames : gmap GoPackageName bool;  (* Package names used in the current file. *)
  addedImports : gmap GoImportPath bool;  (* Additional imports to emit. *)
  typeNameToObject : gmap string Object;  (* Key is a fully-qualified name in input syntax. *)
  indent : string;
  g_pathType : pathType;  (* How to generate output filenames (pathType). *)
  writeOutput : bool;
  fs : gmap string string;  (* the files on disk, by path (os.ReadFile, os.WriteFile) *)
  env : gmap string string;  (* the process environment (os.Getenv) *)
}.

(** Field updates, one per field that the generator assigns. *)
Definition set_Buffer (v : list string) (g : Generator) : Generator :=
  {| Buffer := v; Request := Request g; Response := Response g; Param := Param g; PackageImportPath := PackageImportPath g; ImportPrefix := ImportPrefix g; ImportMap := ImportMap g; Pkg := Pkg g; outputImportPath := outputImportPath g; allFiles := allFiles g; allFilesByName := allFilesByName g; genFiles := genFiles g; g_file := g_file g; packageNames := packageNames g; usedPackages := usedPackages g; usedPackageNames := usedPackageNames g; addedImports := addedImports g; typeNameToObject := typeNameToObject g; indent := indent g; g_pathType := g_pathType g; writeOutput := writeOutput g; fs := fs g; env := env g |}.
Definition set_Response (v : list CodeGeneratorResponse_File) (g : Generator) : Generator :=
  {| Buffer := Buffer g; Request := Request g; Response := v; Param := Param g; PackageImportPath := PackageImportPath g; ImportPrefix := ImportPrefix g; ImportMap := ImportMap g; Pkg := Pkg g; outputImportPath := outputImportPath g; allFiles := allFiles g; allFilesByName := allFilesByName g; genFiles := genFiles g; g_file := g_file g; packageNames := packageNames g; usedPackages := usedPackages g; usedPackageNames := usedPackageNames g; addedImports := addedImports g; typeNameToObject := typeNameToObject g; indent := indent g; g_pathType := g_pathType g; writeOutput := writeOutput g; fs := fs g; env := env g |}.
Definition set_Param (v : gmap string string) (g : Generator) : Generator :=
  {| Buffer := Buffer g; Request := Request g; Response := Response g; Param := v; PackageImportPath := PackageImportPath g; ImportPrefix := ImportPrefix g; ImportMap := ImportMap g; Pkg := Pkg g; outputImportPath := outputImportPath g; allFiles := allFiles g; allFilesByName := allFilesByName g; genFiles := genFiles g; g_file := g_file g; packageNames := packageNames g; usedPackages := usedPackages g; usedPackageNames := usedPackageNames g; addedImports := addedImports g; typeNameToObject := typeNameToObject g; indent := indent g; g_pathType := g_pathType g; writeOutput := writeOutput g; fs := fs g; env := env g |}.
Definition set_PackageImportPath (v : string) (g : Generator) : Generator :=
  {| Buffer := Buffer g; Request := Request g; Response := Response g; Param := Param g; PackageImportPath := v; ImportPrefix := ImportPrefix g; ImportMap := ImportMap g; Pkg := Pkg g; outputImportPath := outputImportPath g; allFiles := allFiles g; allFilesByName := allFilesByName g; genFiles := genFiles g; g_file := g_file g; packageNames := packageNames g; usedPackages := usedPackages g; usedPackageNames := usedPackageNames g; addedImports := addedImports g; typeNameToObject := typeNameToObject g; indent := indent g; g_pathType := g_pathType g; writeOutput := writeOutput g; fs := fs g; env := env g |}.
Definition set_ImportPrefix (v : string) (g : Generator) : Generator :=
  {| Buffer := Buffer g; Request := Request g; Response := Response g; Param := Param g; PackageImportPath := PackageImportPath g; ImportPrefix := v; ImportMap := ImportMap g; Pkg := Pkg g; outputImportPath := outputImportPath g; allFiles := allFiles g; allFilesByName := allFilesByName g; genFiles := genFiles g; g_file := g_file g; packageNames := packageNames g; usedPackages := usedPackages g; usedPackageNames := usedPackageNames g; addedImports := addedImports g; typeNameToObject := typeNameToObject g; indent := indent g; g_pathType := g_pathType g; writeOutput := writeOutput g; fs := fs g; env := env g |}.
Definition set_ImportMap (v : gmap string string) (g : Generator) : Generator :=
  {| Buffer := Buffer g; Request := Request g; Response := Response g; Param := Param g; PackageImportPath := PackageImportPath g; ImportPrefix := ImportPrefix g; ImportMap := v; Pkg := Pkg g; outputImportPath := outputImportPath g; allFiles := allFiles g; allFilesByName := allFilesByName g; genFiles := genFiles g; g_file := g_file g; packageNames := packageNames g; usedPackages := usedPackages g; usedPackageNames := usedPackageNames g; addedImports := addedImports g; typeNameToObject := typeNameToObject g; indent := indent g; g_pathType := g_pathType g; writeOutput := writeOutput g; fs := fs g; env := env g |}.
Definition set_Pkg (v : gmap string string) (g : Generator) : Generator :=
  {| Buffer := Buffer g; Request := Request g; Response := Response g; Param := Param g; PackageImportPath := PackageImportPath g; ImportPrefix := ImportPrefix g; ImportMap := ImportMap g; Pkg := v; outputImportPath := outputImportPath g; allFiles := allFiles g; allFilesByName := allFilesByName g; genFiles := genFiles g; g_file := g_file g; packageNames := packageNames g; usedPackages := usedPackages g; usedPackageNames := usedPackageNames g; addedImports := addedImports g; typeNameToObject := typeNameToObject g; indent := indent g; g_pathType := g_pathType g; writeOutput := writeOutput g; fs := fs g; env := env g |}.
Definition set_outputImportPath (v : GoImportPath) (g : Generator) : Generator :=
  {| Buffer := Buffer g; Request := Request g; Response := Response g; Param := Param g; PackageImportPath := PackageImportPath g; ImportPrefix := ImportPrefix g; ImportMap := ImportMap g; Pkg := Pkg g; outputImportPath := v; allFiles := allFiles g; allFilesByName := allFilesByName g; genFiles := genFiles g; g_file := g_file g; packageNames := packageNames g; usedPackages := usedPackages g; usedPackageNames := usedPackageNames g; addedImports := addedImports g; typeNameToObject := typeNameToObject g; indent := indent g; g_pathType := g_pathType g; writeOutput := writeOutput g; fs := fs g; env := env g |}.
Definition set_allFiles (v : list FileDescriptor) (g : Generator) : Generator :=
  {| Buffer := Buffer g; Request := Request g; Response := Response g; Param := Param g; PackageImportPath := PackageImportPath g; ImportPrefix := ImportPrefix g; ImportMap := ImportMap g; Pkg := Pkg g; outputImportPath := outputImportPath g; allFiles := v; allFilesByName := allFilesByName g; genFiles := genFiles g; g_file := g_file g; packageNames := packageNames g; usedPackages := usedPackages g; usedPackageNames := usedPackageNames g; addedImports := addedImports g; typeNameToObject := typeNameToObject g; indent := indent g; g_pathType := g_pathType g; writeOutput := writeOutput g; fs := fs g; env := env g |}.
Definition set_allFilesByName (v : gmap string nat) (g : Generator) : Generator :=
  {| Buffer := Buffer g; Request := Request g; Response := Response g; Param := Param g; PackageImportPath := PackageImportPath g; ImportPrefix := ImportPrefix g; ImportMap := ImportMap g; Pkg := Pkg g; outputImportPath := outputImportPath g; allFiles := allFiles g; allFilesByName := v; genFiles := genFiles g; g_file := g_file g; packageNames := packageNames g; usedPackages := usedPackages g; usedPackageNames := usedPackageNames g; addedImports := addedImports g; typeNameToObject := typeNameToObject g; indent := indent g; g_pathType := g_pathType g; writeOutput := writeOutput g; fs := fs g; env := env g |}.
Definition set_genFiles (v : list nat) (g : Generator) : Generator :=
  {| Buffer := Buffer g; Request := Request g; Response := Response g; Param := Param g; PackageImportPath := PackageImportPath g; ImportPrefix := ImportPrefix g; ImportMap := ImportMap g; Pkg := Pkg g; outputImportPath := outputImportPath g; allFiles := allFiles g; allFilesByName := allFilesByName g; genFiles := v; g_file := g_file g; packageNames := packageNames g; usedPackages := usedPackages g; usedPackageNames := usedPackageNames g; addedImports := addedImports g; typeNameToObject := typeNameToObject g; indent := indent g; g_pathType := g_pathType g; writeOutput := writeOutput g; fs := fs g; env := env g |}.
Definition set_g_file (v : option nat) (g : Generator) : Generator :=
  {| Buffer := Buffer g; Request := Request g; Response := Response g; Param := Param g; PackageImportPath := PackageImportPath g; ImportPrefix := ImportPrefix g; ImportMap := ImportMap g; Pkg := Pkg g; outputImportPath := outputImportPath g; allFiles := allFiles g; allFilesByName := allFilesByName g; genFiles := genFiles g; g_file := v; packageNames := packageNames g; usedPackages := usedPackages g; usedPackageNames := usedPackageNames g; addedImports := addedImports g; typeNameToObject := typeNameToObject g; indent := indent g; g_pathType := g_pathType g; writeOutput := writeOutput g; fs := fs g; env := env g |}.
Definition set_packageNames (v : gmap GoImportPath GoPackageName) (g : Generator) : Generator :=
  {| Buffer := Buffer g; Request := Request g; Response := Response g; Param := Param g; PackageImportPath := PackageImportPath g; ImportPrefix := ImportPrefix g; ImportMap := ImportMap g; Pkg := Pkg g; outputImportPath := outputImportPath g; allFiles := allFiles g; allFilesByName := allFilesByName g; genFiles := genFiles g; g_file := g_file g; packageNames := v; usedPackages := usedPackages g; usedPackageNames := usedPackageNames g; addedImports := addedImports g; typeNameToObject := typeNameToObject g; indent := indent g; g_pathType := g_pathType g; writeOutput := writeOutput g; fs := fs g; env := env g |}.
Definition set_usedPackages (v : gmap GoImportPath bool) (g : Generator) : Generator :=
  {| Buffer := Buffer g; Request := Request g; Response := Response g; Param := Param g; PackageImportPath := PackageImportPath g; ImportPrefix := ImportPrefix g; ImportMap := ImportMap g; Pkg := Pkg g; outputImportPath := outputImportPath g; allFiles := allFiles g; allFilesByName := allFilesByName g; genFiles := genFiles g; g_file := g_file g; packageNames := packageNames g; usedPackages := v; usedPackageNames := usedPackageNames g; addedImports := addedImports g; typeNameToObject := typeNameToObject g; indent := indent g; g_pathType := g_pathType g; writeOutput := writeOutput g; fs := fs g; env := env g |}.
Definition set_usedPackageNames (v : gmap GoPackageName bool) (g : Generator) : Generator :=
  {| Buffer := Buffer g; Request := Request g; Response := Response g; Param := Param g; PackageImportPath := PackageImportPath g; ImportPrefix := ImportPrefix g; ImportMap := ImportMap g; Pkg := Pkg g; outputImportPath := outputImportPath g; allFiles := allFiles g; allFilesByName := allFilesByName g; genFiles := genFiles g; g_file := g_file g; packageNames := packageNames g; usedPackages := usedPackages g; usedPackageNames := v; addedImports := addedImports g; typeNameToObject := typeNameToObject g; indent := indent g; g_pathType := g_pathType g; writeOutput := writeOutput g; fs := fs g; env := env g |}.
Definition set_addedImports (v : gmap GoImportPath bool) (g : Generator) : Generator :=
  {| Buffer := Buffer g; Request := Request g; Response := Response g; Param := Param g; PackageImportPath := PackageImportPath g; ImportPrefix := ImportPrefix g; ImportMap := ImportMap g; Pkg := Pkg g; outputImportPath := outputImportPath g; allFiles := allFiles g; allFilesByName := allFilesByName g; genFiles := genFiles g; g_file := g_file g; packageNames := packageNames g; usedPackages := usedPackages g; usedPackageNames := usedPackageNames g; addedImports := v; typeNameToObject := typeNameToObject g; indent := indent g; g_pathType := g_pathType g; writeOutput := writeOutput g; fs := fs g; env := env g |}.
Definition set_typeNameToObject (v : gmap string Object) (g : Generator) : Generator :=
  {| Buffer := Buffer g; Request := Request g; Response := Response g; Param := Param g; PackageImportPath := PackageImportPath g; ImportPrefix := ImportPrefix g; ImportMap := ImportMap g; Pkg := Pkg g; outputImportPath := outputImportPath g; allFiles := allFiles g; allFilesByName := allFilesByName g; genFiles := genFiles g; g_file := g_file g; packageNames := packageNames g; usedPackages := usedPackages g; usedPackageNames := usedPackageNames g; addedImports := addedImports g; typeNameToObject := v; indent := indent g; g_pathType := g_pathType g; writeOutput := writeOutput g; fs := fs g; env := env g |}.
Definition set_g_pathType (v : pathType) (g : Generator) : Generator :=
  {| Buffer := Buffer g; Request := Request g; Response := Response g; Param := Param g; PackageImportPath := PackageImportPath g; ImportPrefix := ImportPrefix g; ImportMap := ImportMap g; Pkg := Pkg g; outputImportPath := outputImportPath g; allFiles := allFiles g; allFilesByName := allFilesByName g; genFiles := genFiles g; g_file := g_file g; packageNames := packageNames g; usedPackages := usedPackages g; usedPackageNames := usedPackageNames g; addedImports := addedImports g; typeNameToObject := typeNameToObject g; indent := indent g; g_pathType := v; writeOutput := writeOutput g; fs := fs g; env := env g |}.
Definition set_writeOutput (v : bool) (g : Generator) : Generator :=
  {| Buffer := Buffer g; Request := Request g; Response := Response g; Param := Param g; PackageImportPath := PackageImportPath g; ImportPrefix := ImportPrefix g; ImportMap := ImportMap g; Pkg := Pkg g; outputImportPath := outputImportPath g; allFiles := allFiles g; allFilesByName := allFilesByName g; genFiles := genFiles g; g_file := g_file g; packageNames := packageNames g; usedPackages := usedPackages g; usedPackageNames := usedPackageNames g; addedImports := addedImports g; typeNameToObject := typeNameToObject g; indent := indent g; g_pathType := g_pathType g; writeOutput := v; fs := fs g; env := env g |}.
Definition set_fs (v : gmap string string) (g : Generator) : Generator :=
  {| Buffer := Buffer g; Request := Request g; Response := Response g; Param := Param g; PackageImportPath := PackageImportPath g; ImportPrefix := ImportPrefix g; ImportMap := ImportMap g; Pkg := Pkg g; outputImportPath := outputImportPath g; allFiles := allFiles g; allFilesByName := allFilesByName g; genFiles := genFiles g; g_file := g_file g; packageNames := packageNames g; usedPackages := usedPackages g; usedPackageNames := usedPackageNames g; addedImports := addedImports g; typeNameToObject := typeNameToObject g; indent := indent g; g_pathType := g_pathType g; writeOutput := writeOutput g; fs := v; env := env g |}.

(** [New]: every field has Go's zero value; [req] is the request read
    from standard input, [disk] and [environ] the world the process
    runs in. *)
Definition New (req : CodeGeneratorRequest) (disk environ : gmap string string) : Generator :=
  {| Buffer := []; Request := req; Response := []; Param := ∅;
     PackageImportPath := ""; ImportPrefix := ""; ImportMap := ∅; Pkg := ∅;
     outputImportPath := ""; allFiles := []; allFilesByName := ∅; genFiles := [];
     g_file := None; packageNames := ∅; usedPackages := ∅; usedPackageNames := ∅;
     addedImports := ∅; typeNameToObject := ∅; indent := "";
     g_pathType := pathTypeImport; writeOutput := false; fs := disk; env := environ |}.

(** ** Running to completion or to a fatal exit *)

Inductive Result (A : Type) :=
  | Ok (a : A) (g : Generator)
  | Exit (e : Fatal) (g : Generator).
Arguments Ok {A} a g.
Arguments Exit {A} e g.

Definition M (A : Type) : Type := Generator → Result A.

Definition ret {A} (a : A) : M A := λ g, Ok a g.
Definition bind {A B} (m : M A) (k : A → M B) : M B :=
  λ g, match m g with
       | Ok a g' => k a g'
       | Exit e g' => Exit e g'
       end.
Definition Fail {A} (e : Fatal) : M A := λ g, Exit e g.
Definition get : M Generator := λ g, Ok g g.
Definition modify (f : Generator → Generator) : M unit := λ g, Ok tt (f g).

Declare Scope gen_scope.
Delimit Scope gen_scope with gen.
Notation "x <- c ;; k" := (bind c (λ x, k))
  (at level 100, c at next level, right associativity) : gen_scope.
Notation "c ;;; k" := (bind c (λ _, k))
  (at level 100, right associativity) : gen_scope.
Local Open Scope gen_scope.

(** A dereference or an index that panics when the value is missing. *)
Definition orPanic {A} (what : string) (x : option A) : M A :=
  match x with
  | Some a => ret a
  | None => Fail (Panic what)
  end.

(** [for _, x := range l { body x }]. *)
Fixpoint forM_ {A} (l : list A) (body : A → M unit) : M unit :=
  match l with
  | [] => ret tt
  | x :: r => body x ;;; forM_ r body
  end.

(** [for i, x := range l { body i x }], counting from [i]. *)
Fixpoint forI_ {A} (i : nat) (l : list A) (body : nat → A → M unit) : M unit :=
  match l with
  | [] => ret tt
  | x :: r => body i x ;;; forI_ (S i) r body
  end.

Fixpoint mapM {A B} (f : A → M B) (l : list A) : M (list B) :=
  match l with
  | [] => ret []
  | x :: r => y <- f x ;; ys <- mapM f r ;; ret (y :: ys)
  end.

Section Generator.
Context `{Externals}.

(** ** [descriptor_file.go] *)

(** [goPackageOption] interprets the file's go_package option:
    [("", "", false)] without one, [("", pkg, true)] for a simple name,
    [(impPath, pkg, true)] when the option implies an import path. *)
Definition goPackageOption (d : FileDescriptorProto) : GoImportPath * GoPackageName * bool :=
  let opt := GetString (GoPackage d) in
  if decide (opt = "") then ("", "", false)
  else
    match strings_Index opt ";"%char with
    | Some sc => (str_take sc opt, cleanPackageName (str_drop (S sc) opt), true)
    | None =>
        match strings_LastIndex opt "/"%char with
        | Some slash => (opt, cleanPackageName (str_drop (S slash) opt), true)
        | None => ("", cleanPackageName opt, true)
        end
    end.

(** [goFileName] returns the output name for the generated Go file;
    [None] is the panic of [*d.Name] on a file without a name. *)
Definition goFileName (d : FileDescriptorProto) (pt : pathType) (typ : string) : option string :=
  match Name d with
  | None => None
  | Some name =>
      let ext := path_Ext name in
      let name :=
        if bool_decide (ext = ".proto" ∨ ext = ".protodevel")
        then str_take (String.length name - String.length ext) name
        else name in
      let name :=
        match Package d with
        | Some pkg =>
            let pname := strings_ToLower pkg in
            let arr := strings_Split name "/"%char in
            if decide (length arr = 2%nat)
            then pname +:+ "/" +:+ default "" (arr !! 1%nat)
            else pname +:+ "/" +:+ default "" (arr !! 0%nat)
        | None => name
        end in
      let name := name +:+ "." +:+ typ +:+ ".go" in
      match pt with
      | pathTypeSourceRelative => Some name
      | pathTypeImport => Some name
      end
  end.

(** ** [CommandLineParameters] *)

(** One [key=value] (or bare [key]) entry of the parameter string. *)
Definition addParam (m : gmap string string) (p : string) : gmap string string :=
  match strings_Index p "="%char with
  | None => <[p := ""]> m
  | Some i => <[str_take i p := str_drop (S i) p]> m
  end.

(** The [switch k] of the loop over [g.Param]. *)
Definition paramCase (k v : string) : M unit :=
  if decide (k = "import_prefix") then modify (set_ImportPrefix v)
  else if decide (k = "import_path") then modify (set_PackageImportPath v)
  else if decide (k = "paths") then
    if decide (v = "import") then modify (set_g_pathType pathTypeImport)
    else if decide (v = "source_relative") then modify (set_g_pathType pathTypeSourceRelative)
    else Fail (Fail_UnknownPathType v)
  else
    match k with
    | String "M" rest => modify (λ g, set_ImportMap (<[rest := v]> (ImportMap g)) g)
    | _ => ret tt
    end.

(** [for k, v := range g.Param { switch k { ... } }]: the loop over the
    map visits every key once, in an unspecified order ([map_fold]). *)
Definition paramLoop (m : gmap string string) : M unit :=
  map_fold (λ k v (acc : M unit), (acc ;;; paramCase k v)) (ret tt) m.

(** [g.Param["key"]]: the zero value when the key is absent. *)
Definition Param_get (g : Generator) (k : string) : string := default "" (Param g !! k).

(** [CommandLineParameters] breaks the comma-separated list of key=value
    pairs into [Param], then sets the fields those entries define. *)
Definition CommandLineParameters (parameter : string) : M unit :=
  (modify (set_Param (foldl addParam ∅ (strings_Split parameter ","%char))) ;;;
   modify (set_ImportMap ∅) ;;;
   g <- get ;;
   paramLoop (Param g) ;;;
   g <- get ;;
   if decide (ImportPrefix g = "")
   then modify (set_ImportPrefix (Param_get g "repo" +:+ "/"))
   else ret tt).

(** ** [descriptor.go] and the enum descriptor *)

(** [TypeName] of a [Descriptor]: the names from the outermost message down. *)
Fixpoint Descriptor_TypeName (d : Descriptor) : list string :=
  match d with
  | Build_Descriptor _ dp par _ _ _ _ _ _ _ =>
      match par with
      | None => [GetString (dp_Name dp)]
      | Some p => Descriptor_TypeName p ++ [GetString (dp_Name dp)]
      end
  end.

Definition EnumDescriptor_TypeName (e : EnumDescriptor) : list string :=
  match e_parent e with
  | None => [GetString (ep_Name (e_proto e))]
  | Some p => Descriptor_TypeName p ++ [GetString (ep_Name (e_proto e))]
  end.

Definition fileIsProto3 (f : FileDescriptorProto) : bool :=
  bool_decide (GetString (Syntax f) = "proto3").

(** [newDescriptor]; [addr] is the slot of the slice that the caller
    appends the new descriptor to. *)
Definition newDescriptor (dp : DescriptorProto) (parent : option Descriptor)
    (file : common) (index addr : nat) : Descriptor :=
  let path :=
    match parent with
    | None => strconv_Itoa messagePath +:+ "," +:+ strconv_Itoa index
    | Some p => d_path p +:+ "," +:+ strconv_Itoa messageMessagePath +:+ "," +:+ strconv_Itoa index
    end in
  let d := Build_Descriptor file dp parent [] [] (dp_Extension dp) index path false addr in
  let isGroup :=
    match parent with
    | None => false
    | Some p =>
        let parts := Descriptor_TypeName d in
        let parts := match Package (c_proto file) with
                     | Some pkg => pkg :: parts
                     | None => parts
                     end in
        let exp := "." +:+ strings_Join parts "." in
        bool_decide (Exists (λ field, fp_Type field = TYPE_GROUP ∧ GetString (fp_TypeName field) = exp)
                            (dp_Field (d_proto p)))
    end in
  Build_Descriptor file dp parent [] [] (dp_Extension dp) index path isGroup addr.

(** [wrapThisDescriptor]: wrap this message, then its nested messages,
    recursively, each with the wrapped message as parent. *)
Fixpoint wrapThisDescriptor (sl : list Descriptor) (dp : DescriptorProto)
    (parent : option Descriptor) (file : common) (index : nat) {struct dp} : list Descriptor :=
  let me := newDescriptor dp parent file index (length sl) in
  let sl := sl ++ [me] in
  (fix nestedLoop (sl : list Descriptor) (i : nat) (l : list DescriptorProto) {struct l} :=
     match l with
     | [] => sl
     | n :: r => nestedLoop (wrapThisDescriptor sl n (Some me) file i) (S i) r
     end) sl 0%nat (dp_NestedType dp).

Fixpoint wrapDescriptors_loop (sl : list Descriptor) (i : nat) (l : list DescriptorProto)
    (file : common) : list Descriptor :=
  match l with
  | [] => sl
  | dp :: r => wrapDescriptors_loop (wrapThisDescriptor sl dp None file i) (S i) r file
  end.

(** [wrapDescriptors]: all the messages defined within the file. *)
Definition wrapDescriptors (file : common) : list Descriptor :=
  wrapDescriptors_loop [] 0%nat (MessageType (c_proto file)) file.

Definition newEnumDescriptor (ep : EnumDescriptorProto) (parent : option Descriptor)
    (file : common) (index addr : nat) : EnumDescriptor :=
  let path :=
    match parent with
    | None => strconv_Itoa enumPath +:+ "," +:+ strconv_Itoa index
    | Some p => d_path p +:+ "," +:+ strconv_Itoa messageEnumPath +:+ "," +:+ strconv_Itoa index
    end in
  {| e_common := file; e_proto := ep; e_parent := parent; e_index := index;
     e_path := path; e_addr := addr |}.

Fixpoint wrapEnums_loop (sl : list EnumDescriptor) (i : nat) (l : list EnumDescriptorProto)
    (parent : option Descriptor) (file : common) : list EnumDescriptor :=
  match l with
  | [] => sl
  | ep :: r =>
      wrapEnums_loop (sl ++ [newEnumDescriptor ep parent file i (length sl)]) (S i) r parent file
  end.

(** [wrapEnumDescriptors]: the top-level enums, then the enums of every
    wrapped message. *)
Definition wrapEnumDescriptors (file : common) (descs : list Descriptor) : list EnumDescriptor :=
  let sl := wrapEnums_loop [] 0%nat (EnumType (c_proto file)) None file in
  foldl (λ sl nested, wrapEnums_loop sl 0%nat (dp_EnumType (d_proto nested)) (Some nested) file)
        sl descs.

(** [wrapExtensions]: the top-level extensions. *)
Definition wrapExtensions (file : common) : list ExtensionDescriptor :=
  (λ field, {| x_common := file; x_field := field; x_parent := None |}) <$> Extension (c_proto file).

(** [extractComments]: the locations that carry a leading comment, keyed
    by their path written as comma-separated integers. *)
Definition extractComments (f : FileDescriptorProto) : gmap string SourceCodeInfo_Location :=
  foldl (λ m loc,
           match loc_LeadingComments loc with
           | None => m
           | Some _ => <[strings_Join (pretty <$> loc_Path loc) "," := loc]> m
           end) ∅ (SourceCodeInfo f).

Fixpoint foldM {A B} (f : B → A → M B) (b : B) (l : list A) : M B :=
  match l with
  | [] => ret b
  | x :: r => b' <- f b x ;; foldM f b' r
  end.

Definition set_nested (v : list nat) (d : Descriptor) : Descriptor :=
  Build_Descriptor (d_common d) (d_proto d) (d_parent d) v (enums d) (d_ext d)
                   (d_index d) (d_path d) (group d) (d_addr d).

Definition set_enums (v : list nat) (d : Descriptor) : Descriptor :=
  Build_Descriptor (d_common d) (d_proto d) (d_parent d) (nested d) v (d_ext d)
                   (d_index d) (d_path d) (group d) (d_addr d).

(** [nest.parent == desc], a comparison of pointers into the same slice. *)
Definition parentIs (parent : option Descriptor) (d : Descriptor) : bool :=
  bool_decide (d_addr <$> parent = Some (d_addr d)).

(** [buildNestedDescriptors]: for each message, the slice of its nested
    messages; the number found must be the number declared. *)
Definition buildNestedDescriptors (descs : list Descriptor) : M (list Descriptor) :=
  mapM (λ d,
    if decide (length (dp_NestedType (d_proto d)) ≠ 0) then
      let d' := set_nested (nested d ++ (d_addr <$> filter (λ nest, parentIs (d_parent nest) d) descs)) d in
      if decide (length (nested d') ≠ length (dp_NestedType (d_proto d)))
      then Fail (Fail_NestingFailure (GetString (dp_Name (d_proto d))))
      else ret d'
    else ret d) descs.

Definition buildNestedEnums (descs : list Descriptor) (es : list EnumDescriptor) : M (list Descriptor) :=
  mapM (λ d,
    if decide (length (dp_EnumType (d_proto d)) ≠ 0) then
      let d' := set_enums (enums d ++ (e_addr <$> filter (λ e, parentIs (e_parent e) d) es)) d in
      if decide (length (enums d') ≠ length (dp_EnumType (d_proto d)))
      then Fail (Fail_EnumNestingFailure (GetString (dp_Name (d_proto d))))
      else ret d'
    else ret d) descs.

Definition fileByName (g : Generator) (filename : string) : option FileDescriptor :=
  match allFilesByName g !! filename with
  | Some i => allFiles g !! i
  | None => None
  end.

Definition commonOf (i : nat) (fd : FileDescriptor) : common :=
  {| c_file := i; c_proto := fd_proto fd; c_importPath := importPath fd |}.

Definition MapEntry (d : Descriptor) : bool := dp_MapEntry (d_proto d).

(** What one public dependency [df] contributes to [wrapImported]. *)
Definition importedFrom (c : common) (df : FileDescriptor) : list ImportedDescriptor :=
  ((λ d, {| i_common := c; o := ObjDescriptor d |}) <$> filter (λ d, MapEntry d = false) (desc df))
  ++ ((λ e, {| i_common := c; o := ObjEnum e |}) <$> enum df)
  ++ ((λ x, {| i_common := c; o := ObjExtension x |}) <$> ext df).

(** [wrapImported]: all the types that are publicly imported into the
    file at position [i] of [allFiles]. *)
Definition wrapImported (i : nat) (file : FileDescriptor) : M (list ImportedDescriptor) :=
  g <- get ;;
  foldM (λ sl (index : Z),
           name <- orPanic "index out of range"
                     (if decide (0 ≤ index)%Z then Dependency (fd_proto file) !! Z.to_nat index else None) ;;
           df <- orPanic "nil pointer dereference" (fileByName g name) ;;
           ret (sl ++ importedFrom (commonOf i file) df))
        [] (PublicDependency (fd_proto file)).

(** ** [WrapTypes] *)

Definition set_imp (v : list ImportedDescriptor) (fd : FileDescriptor) : FileDescriptor :=
  {| fd_proto := fd_proto fd; desc := desc fd; enum := enum fd; ext := ext fd; imp := v;
     comments := comments fd; importPath := importPath fd; packageName := packageName fd;
     proto3 := proto3 fd |}.

Definition set_packageName (v : GoPackageName) (fd : FileDescriptor) : FileDescriptor :=
  {| fd_proto := fd_proto fd; desc := desc fd; enum := enum fd; ext := ext fd; imp := imp fd;
     comments := comments fd; importPath := importPath fd; packageName := v;
     proto3 := proto3 fd |}.

(** The import path of a file may be set in a number of ways. *)
Definition fileImportPath (g : Generator) (genFileNames : gmap string bool)
    (f : FileDescriptorProto) : GoImportPath :=
  match ImportMap g !! GetString (Name f) with
  | Some substitution => substitution      (* Command-line: M=foo.proto=quux/bar. *)
  | None =>
      if default false (genFileNames !! GetString (Name f)) && negb (bool_decide (PackageImportPath g = ""))
      then PackageImportPath g               (* Command-line: import_path=quux/bar. *)
      else if negb (bool_decide ((goPackageOption f).1.1 = ""))
      then (goPackageOption f).1.1           (* Source file: option go_package = "quux/bar"; *)
      else path_Dir (GetString (Name f))     (* Source filename. *)
  end.

(** The body of the loop of [WrapTypes] over [g.Request.ProtoFile]. *)
Definition wrapFile (genFileNames : gmap string bool) (f : FileDescriptorProto) : M unit :=
  g <- get ;;
  let c := {| c_file := length (allFiles g); c_proto := f;
              c_importPath := fileImportPath g genFileNames f |} in
  descs <- buildNestedDescriptors (wrapDescriptors c) ;;
  let es := wrapEnumDescriptors c descs in
  descs <- buildNestedEnums descs es ;;
  let fd := {| fd_proto := f; desc := descs; enum := es; ext := wrapExtensions c; imp := [];
               comments := extractComments f; importPath := fileImportPath g genFileNames f;
               packageName := ""; proto3 := fileIsProto3 f |} in
  modify (λ g, set_allFilesByName (<[GetString (Name f) := length (allFiles g)]> (allFilesByName g))
                 (set_allFiles (allFiles g ++ [fd]) g)).

(** [WrapTypes] walks the incoming data, wrapping the descriptors into
    file-referenced objects, and creates the list of files to generate. *)
Definition WrapTypes : M unit :=
  modify (set_allFiles []) ;;;
  modify (set_allFilesByName ∅) ;;;
  g <- get ;;
  let genFileNames := foldl (λ m n, <[n := true]> m) (∅ : gmap string bool)
                            (FileToGenerate (Request g)) in
  forM_ (ProtoFile (Request g)) (wrapFile genFileNames) ;;;
  g <- get ;;
  forI_ 0 (allFiles g) (λ i fd,
    sl <- wrapImported i fd ;;
    modify (λ g, set_allFiles (alter (set_imp sl) i (allFiles g)) g)) ;;;
  modify (set_genFiles []) ;;;
  forM_ (FileToGenerate (Request g)) (λ fileName,
    g <- get ;;
    match allFilesByName g !! fileName with
    | None => Fail (Fail_FileNotFound fileName)
    | Some i => modify (λ g, set_genFiles (genFiles g ++ [i]) g)
    end).

(** ** [SetPackageNames] *)

(** [defaultGoPackage]: the package name derived from the import path of
    the package we're building code for. *)
Definition defaultGoPackage (g : Generator) : GoPackageName :=
  let p := PackageImportPath g in
  let p := match strings_LastIndex p "/"%char with
           | Some i => str_drop (S i) p
           | None => p
           end in
  cleanPackageName p.

(** The files behind [g.genFiles]; a position outside [allFiles] would
    be a nil pointer. *)
Definition genFileAt (g : Generator) (i : nat) : M FileDescriptor :=
  orPanic "nil pointer dereference" (allFiles g !! i).

(** The first loop: the go_package names, by import path. *)
Definition defaultPackageNamesOf (files : list FileDescriptor)
    : gmap GoImportPath GoPackageName :=
  foldl (λ m f, let '(_, p, ok) := goPackageOption (fd_proto f) in
                if ok then <[importPath f := p]> m else m) ∅ files.

(** The package name that the second loop gives to [f]. *)
Definition packageNameFor (g : Generator) (defaultPackageNames : gmap GoImportPath GoPackageName)
    (f : FileDescriptor) : GoPackageName :=
  let '(_, p, ok) := goPackageOption (fd_proto f) in
  if ok then p                              (* Source file: option go_package = "quux/bar"; *)
  else match defaultPackageNames !! importPath f with
       | Some p => p                        (* A go_package option in another file in the same package. *)
       | None =>
           if negb (bool_decide (defaultGoPackage g = "")) then defaultGoPackage g
                                            (* Command-line: import_path=quux/bar. *)
           else if negb (bool_decide (GetString (Package (fd_proto f)) = ""))
           then cleanPackageName (GetString (Package (fd_proto f)))
                                            (* Source file: package quux.bar; *)
           else cleanPackageName (baseName (GetString (Name (fd_proto f))))
                                            (* Source filename. *)
       end.

(** [SetPackageNames] sets the package name for this run. The package
    name must agree across all files being generated. *)
Definition SetPackageNames : M unit :=
  g <- get ;;
  first <- orPanic "index out of range" (genFiles g !! 0) ;;
  f0 <- genFileAt g first ;;
  modify (set_outputImportPath (importPath f0)) ;;;
  modify (set_outputImportPath (GetString (Name (fd_proto f0)))) ;;;
  files <- mapM (genFileAt g) (genFiles g) ;;
  let defaultPackageNames := defaultPackageNamesOf files in
  forM_ (genFiles g) (λ i,
    g <- get ;;
    f <- genFileAt g i ;;
    modify (λ g, set_allFiles (alter (set_packageName (packageNameFor g defaultPackageNames f)) i
                                     (allFiles g)) g)) ;;;
  (* Check that all files have a consistent package name and import path. *)
  forM_ (drop 1 (genFiles g)) (λ i,
    g <- get ;;
    f0 <- genFileAt g first ;;
    f <- genFileAt g i ;;
    (if decide (importPath f0 ≠ importPath f)
     then Fail (Fail_InconsistentImportPaths (importPath f0) (importPath f))
     else ret tt) ;;;
    (if decide (packageName f0 ≠ packageName f)
     then Fail (Fail_InconsistentPackageNames (packageName f0) (packageName f))
     else ret tt)) ;;;
  modify (set_Pkg (<["fmt" := "fmt"]> (<["math" := "math"]> (<["proto" := "proto"]> ∅)))).

(** ** The index of type names *)

Definition Object_common (ob : Object) : common :=
  match ob with
  | ObjDescriptor d => d_common d
  | ObjEnum e => e_common e
  | ObjExtension x => x_common x
  end.

(** [TypeName] of the object behind the interface; an extension's name
    is never asked for by the modelled code. *)
Definition Object_TypeName (ob : Object) : list string :=
  match ob with
  | ObjDescriptor d => Descriptor_TypeName d
  | ObjEnum e => EnumDescriptor_TypeName e
  | ObjExtension x => [GetString (fp_Name (x_field x))]
  end.

(** The package name may be empty. If so, the dotted package name of X
    is ".X"; otherwise it is ".pkg.X". *)
Definition dottedPkgOf (f : FileDescriptor) : string :=
  let dottedPkg := "." +:+ GetString (Package (fd_proto f)) in
  if decide (dottedPkg ≠ ".") then dottedPkg +:+ "." else dottedPkg.

Definition indexObject (name : string) (ob : Object) : M unit :=
  modify (λ g, set_typeNameToObject (<[name := ob]> (typeNameToObject g)) g).

(** [BuildTypeNameMap] builds the map from fully qualified type names to
    objects. *)
Definition BuildTypeNameMap : M unit :=
  modify (set_typeNameToObject ∅) ;;;
  g <- get ;;
  forM_ (allFiles g) (λ f,
    let dottedPkg := dottedPkgOf f in
    forM_ (enum f) (λ e, indexObject (dottedPkg +:+ dottedSlice (EnumDescriptor_TypeName e)) (ObjEnum e)) ;;;
    forM_ (desc f) (λ d, indexObject (dottedPkg +:+ dottedSlice (Descriptor_TypeName d)) (ObjDescriptor d))).

(** [ObjectNamed], given a fully-qualified input type name, returns the
    descriptor for the message or enum with that name. *)
Definition ObjectNamed (typeName : string) : M Object :=
  g <- get ;;
  match typeNameToObject g !! typeName with
  | Some ob => ret ob
  | None => Fail (Fail_ObjectNotFound typeName)
  end.

(** ** Package names of imports *)

Definition isGoPredeclaredIdentifier : list string :=
  [ "append"; "bool"; "byte"; "cap"; "close"; "complex"; "complex128"; "complex64";
    "copy"; "delete"; "error"; "false"; "float32"; "float64"; "imag"; "int"; "int16";
    "int32"; "int64"; "int8"; "iota"; "len"; "make"; "new"; "nil"; "panic"; "print";
    "println"; "real"; "recover"; "rune"; "string"; "true"; "uint"; "uint16"; "uint32";
    "uint64"; "uint8"; "uintptr" ].

(** The condition of the renaming loop of [GoPackageName]. *)
Definition nameTaken (used : gmap GoPackageName bool) (name : GoPackageName) : bool :=
  default false (used !! name) || bool_decide (name ∈ isGoPredeclaredIdentifier).

(** [for i, orig := 1, name; taken(name); i++ { name = orig + Itoa(i) }],
    run for at most [fuel] tests of the condition. *)
Fixpoint freshName (fuel : nat) (used : gmap GoPackageName bool) (orig name : GoPackageName)
    (i : nat) : option GoPackageName :=
  match fuel with
  | O => None
  | S fuel' =>
      if nameTaken used name
      then freshName fuel' used orig (orig +:+ strconv_Itoa i) (S i)
      else Some name
  end.

(** The loop ends within this many tests (see [freshName_total]). *)
Definition freshName_fuel (used : gmap GoPackageName bool) : nat :=
  size used + length isGoPredeclaredIdentifier + 1.

(** [GoPackageName] returns the name used for a package. *)
Definition GoPackageName_ (importPath : GoImportPath) : M GoPackageName :=
  g <- get ;;
  match packageNames g !! importPath with
  | Some name => ret name
  | None =>
      let name := cleanPackageName (baseName importPath) in
      name <- orPanic "GoPackageName: renaming loop"
                (freshName (freshName_fuel (usedPackageNames g)) (usedPackageNames g) name name 1) ;;
      modify (λ g, set_packageNames (<[importPath := name]> (packageNames g)) g) ;;;
      modify (λ g, set_usedPackageNames (<[name := true]> (usedPackageNames g)) g) ;;;
      ret name
  end.

(** [AddImport] adds a package to the generated file's import section. *)
Definition AddImport (importPath : GoImportPath) : M GoPackageName :=
  modify (λ g, set_addedImports (<[importPath := true]> (addedImports g)) g) ;;;
  GoPackageName_ importPath.

(** [DefaultPackageName] returns the package name printed for the
    object: empty inside the output package, else the name used for the
    object's file followed by a dot. *)
Definition DefaultPackageName (ob : Object) : M string :=
  g <- get ;;
  let importPath := GetString (Name (c_proto (Object_common ob))) in
  if decide (importPath = outputImportPath g) then ret ""
  else name <- GoPackageName_ importPath ;; ret (name +:+ ".").

(** [TypeName] is the printed name appropriate for an item. *)
Definition TypeName (ob : Object) : M string :=
  pkg <- DefaultPackageName ob ;;
  ret (pkg +:+ CamelCaseSlice (Object_TypeName ob)).

Definition RecordTypeUse (t : string) : M unit :=
  g <- get ;;
  match typeNameToObject g !! t with
  | None => ret tt
  | Some _ =>
      ob <- ObjectNamed t ;;
      let importPath := GetString (Name (c_proto (Object_common ob))) in
      if decide (importPath = outputImportPath g) then ret tt
      else
        AddImport importPath ;;;
        modify (λ g, set_usedPackages (<[importPath := true]> (usedPackages g)) g)
  end.

Definition typeName (str : string) : M string :=
  RecordTypeUse str ;;;
  ob <- ObjectNamed str ;;
  TypeName ob.

(** ** Output *)

(** [P] prints the arguments to the generated output, as one line. *)
Definition P (atoms : list string) : M unit :=
  g <- get ;;
  if writeOutput g
  then modify (set_Buffer (Buffer g ++ [indent g +:+ String.concat "" atoms]))
  else ret tt.

(** [g.file], the file we are compiling now. *)
Definition currentFile : M FileDescriptor :=
  g <- get ;;
  i <- orPanic "nil pointer dereference" (g_file g) ;;
  orPanic "nil pointer dereference" (allFiles g !! i).

(** [makeComments] generates the comment string for the path. *)
Definition makeComments (path : string) : M (string * bool) :=
  f <- currentFile ;;
  match comments f !! path with
  | None => ret ("", false)
  | Some loc =>
      let lines := strings_Split (strings_TrimSuffix (GetString (loc_LeadingComments loc))
                                                    (String lf "")) lf in
      ret (strings_Join ((λ line, "//" +:+ line) <$> lines) (String lf ""), true)
  end.

(** ** The handler manifest *)

(** [generateHandler] reads [<path>/handler.json], sets [m[k] = v] and
    writes the file back. The result of [os.WriteFile] is discarded by
    the source; the model lets the write succeed. *)
Definition generateHandler (k v : string) : M unit :=
  g <- get ;;
  let p := Param_get g "path" +:+ "/handler.json" in
  match fs g !! p with
  | None => Fail Fail_HandlerFileNotFound
  | Some bts =>
      match json_Unmarshal bts with
      | None => Fail Fail_HandlerContentError
      | Some m =>
          let m := <[k := v]> m in
          modify (λ g, set_fs (<[p := json_Marshal m]> (fs g)) g)
      end
  end.

(** ** The API pass *)

Definition reservedClientName : gmap string bool := ∅.

Definition generateClientSignature (reqServ servName : string) (method : MethodDescriptorProto)
    : M string :=
  let origMethName := GetString (mp_Name method) in
  let methName := CamelCase origMethName in
  let methName := if default false (reservedClientName !! methName) then methName +:+ "_" else methName in
  RecordTypeUse (GetString (mp_InputType method)) ;;;
  in_ <- typeName (GetString (mp_InputType method)) ;;
  let in_ := if bool_decide (in_ = "types.Empty" ∨ in_ = "empty.Empty")
             then "router.Empty" else in_ in
  let input := ", in *" +:+ in_ in
  outName <- typeName (GetString (mp_OutputType method)) ;;
  let output := ", out *" +:+ outName in
  ret (methName +:+ "(ctx *gin.Context" +:+ input +:+ output +:+ ") error").

(** The scan of [g.file.desc] for the message rendered as [inType]:
    binding is needed unless the first message with that Go name (map
    entries skipped) has no field. *)
Fixpoint needBindScan (descs : list Descriptor) (inType : string) : bool :=
  match descs with
  | [] => true
  | d :: r =>
      if MapEntry d then needBindScan r inType
      else if decide (CamelCaseSlice (Descriptor_TypeName d) = inType)
      then (if decide (length (dp_Field (d_proto d)) = 0) then false else true)
      else needBindScan r inType
  end.

(** The [switch strings.ToLower(binding)]: method and binding type. *)
Definition bindingChoice (binding : string) : string * string :=
  let b := strings_ToLower binding in
  if decide (b = "form") then ("ShouldBindWith", "Form")
  else if decide (b = "query") then ("ShouldBindWith", "Query")
  else if decide (b = "formpost") then ("ShouldBindWith", "FormPost")
  else if decide (b = "formmultipart") then ("ShouldBindWith", "FormMultipart")
  else ("ShouldBindBodyWith", "JSON").

(** The line that opens a route. *)
Definition routeLine (verb url : string) (middlewares : list string) : string :=
  if decide (0 < length middlewares)
  then "router.Handle(g, " +:+ quoted verb +:+ ", " +:+ quoted url +:+ ", []string{"
       +:+ quoted (strings_Join middlewares (dq +:+ "," +:+ dq)) +:+ "}, func(ctx *gin.Context) {"
  else "g." +:+ verb +:+ "(" +:+ quoted url +:+ ", func(ctx *gin.Context) {".

(** The [if method.Options != nil && proto.HasExtension(...)] block:
    the route line of a GET or POST pattern, and the pair
    [(isGet, noJSON)]; without the option the run fails. *)
Definition routeBlock (method : MethodDescriptorProto) (middlewares : list string)
    : M (bool * bool) :=
  match mp_Options method with
  | Some {| E_Http := Some opts |} =>
      isGet <- match Pattern opts with
               | HttpRule_Get url => P [routeLine "GET" url middlewares] ;;; ret true
               | _ => ret false
               end ;;
      match Pattern opts with
      | HttpRule_Post url => P [routeLine "POST" url middlewares]
      | _ => ret tt
      end ;;;
      ret (isGet, negb (bool_decide (ResponseBody opts = ""))
                  && negb (bool_decide (ResponseBody opts = "json")))
  | _ => Fail Fail_HttpOptionNotFound
  end.

(** The [if needBind { ... } else { ... }] block. *)
Definition bindBlock (needBind isGet bindCheck : bool) (binding inType outType gec : string)
    : M unit :=
  if needBind then
    let '(bindingMth, bindingType) := bindingChoice binding in
    P ["input, output := " +:+ inType +:+ "{}, " +:+ outType +:+ "{}"] ;;;
    P [] ;;;
    (if negb bindCheck then
       if isGet then P ["_ = ctx.ShouldBindQuery(&input)"]
       else P ["_ = ctx." +:+ bindingMth +:+ "(&input, binding." +:+ bindingType +:+ ")"]
     else
       (if isGet then P ["if err := ctx.ShouldBindQuery(&input); err != nil {"]
        else P ["if err := ctx." +:+ bindingMth +:+ "(&input, binding." +:+ bindingType
                +:+ "); err != nil {"]) ;;;
       P ["router.Error(ctx, " +:+ gec +:+ ", err)"] ;;;
       P ["return"] ;;;
       P ["}"]) ;;;
    P []
  else
    P ["input := " +:+ inType +:+ "{}"] ;;;
    P ["var output " +:+ outType] ;;;
    P [].

(** The [if noJSON { ... } else { ... }] block and the end of the
    closure. *)
Definition callBlock (noJSON : bool) (methName gec : string) : M unit :=
  (if noJSON then
     P ["_ = h." +:+ methName +:+ "(ctx, &input, &output)"]
   else
     P ["err := h." +:+ methName +:+ "(ctx.Copy(), &input, &output)"] ;;;
     P ["if err != nil {"] ;;;
     P ["router.Error(ctx, " +:+ gec +:+ ", err)"] ;;;
     P ["return"] ;;;
     P ["}"] ;;;
     P [] ;;;
     P ["router.JSON(ctx, &output)"]) ;;;
  P ["})"] ;;;
  P [].

(** Whether the rendered input type is the empty-input marker. *)
Definition isEmptyType (inType : string) : bool :=
  bool_decide (inType = "types.Empty" ∨ inType = "empty.Empty").

(** The first part of [generateClientMethod]: the rendered input type
    and whether the input needs binding. *)
Definition inputOf (method : MethodDescriptorProto) : M (string * bool) :=
  inType <- typeName (GetString (mp_InputType method)) ;;
  if isEmptyType inType then ret ("router.Empty", false)
  else
    f <- currentFile ;;
    ret (inType, needBindScan (desc f) inType).

Definition generateClientMethod (reqServ servName : string) (method : MethodDescriptorProto)
    (customAnnotations : gmap string string) : M bool :=
  g <- get ;;
  let gec := default "" (env g !! "GEN_ERROR_CODE") in
  let gec := if decide (gec = "") then "500" else gec in
  let origMethName := GetString (mp_Name method) in
  let methName := CamelCase origMethName in
  let methName := if default false (reservedClientName !! methName) then methName +:+ "_" else methName in
  input <- inputOf method ;;
  let '(inType, needBind) := input in
  outType <- typeName (GetString (mp_OutputType method)) ;;
  let outType := if strings_HasPrefix outType (reqServ +:+ ".")
                 then strings_TrimPrefix outType (reqServ +:+ ".") else outType in
  let middlewares :=
    match customAnnotations !! "middleware" with
    | Some val => strings_Split val ","%char
    | None => []
    end in
  let bindCheck :=
    match customAnnotations !! "bindcheck" with
    | Some val => negb (strings_EqualFold val "false")
    | None => true
    end in
  let binding := default "json" (customAnnotations !! "binding") in
  route <- routeBlock method middlewares ;;
  let '(isGet, noJSON) := route in
  bindBlock needBind isGet bindCheck binding inType outType gec ;;;
  callBlock noJSON methName gec ;;;
  ret needBind.

(** The directives of a leading comment: the space-separated [key] or
    [key:value] words that follow the tag marker. *)
Definition customAnnotationsOf (cs : string) : gmap string string :=
  match regAnnotation_FindStringSubmatch cs with
  | _ :: res1 :: _ =>
      foldl (λ m h,
               let key := strings_Trim h in
               if strings_Contains key ":"
               then let arr := strings_Split key ":"%char in
                    <[default "" (arr !! 0) := default "" (arr !! 1)]> m
               else <[key := ""]> m)
            ∅ (strings_Split res1 " "%char)
  | _ => ∅
  end.

(** The first part of [generateService]: the handler interface and the
    registration function, one route per method. It returns whether a
    method binds its input. *)
Definition serviceRoutes (file : FileDescriptor) (service : ServiceDescriptorProto)
    (index : nat) : M bool :=
  let path := "6," +:+ strconv_Itoa index in
  let origServName := GetString (sp_Name service) in
  let serviceName := strings_ToLower (GetString (sp_Name service)) in
  let serviceName := if decide (GetString (Package (fd_proto file)) ≠ "")
                     then GetString (Package (fd_proto file)) else serviceName in
  let servName := CamelCase origServName in
  P [] ;;;
  P [] ;;;
  (* Client interface. *)
  P ["type "; servName; "Handler interface {"] ;;;
  forM_ (sp_Method service) (λ method,
    sig <- generateClientSignature serviceName servName method ;;
    P [sig]) ;;;
  P ["}"] ;;;
  P [] ;;;
  P ["func Register" +:+ servName +:+ "Handler(g *gin.Engine, h " +:+ servName +:+ "Handler) {"] ;;;
  hasBinding <-
    foldM (λ hasBinding '(i, method),
             c <- makeComments (path +:+ ",2," +:+ strconv_Itoa i) ;;
             customAnnotations <-
               (if c.2 then
                  g <- get ;;
                  (if writeOutput g then P [c.1] else ret tt) ;;;
                  ret (customAnnotationsOf c.1)
                else ret ∅) ;;
             binding <- generateClientMethod serviceName servName method customAnnotations ;;
             ret (if negb hasBinding && binding then true else hasBinding))
          false (zip (seq 0 (length (sp_Method service))) (sp_Method service)) ;;
  P ["}"] ;;;
  P [] ;;;
  ret hasBinding.

(** [generateService]: the routes, then the entry of the service in the
    handler manifest. *)
Definition generateService (file : FileDescriptor) (service : ServiceDescriptorProto)
    (index : nat) : M bool :=
  let servName := CamelCase (GetString (sp_Name service)) in
  hasBinding <- serviceRoutes file service index ;;
  g <- get ;;
  fname <- orPanic "nil pointer dereference" (goFileName (fd_proto file) (g_pathType g) "api") ;;
  let fpath := filepath_Dir fname in
  generateHandler (fpath +:+ "/" +:+ servName) fpath ;;;
  ret hasBinding.

(** [GenerateAllFiles] and [generateApiFile] up to the loop over the
    services, for the file at position [i] when nothing is publicly
    imported into it: the buffer and the tables of the current file are
    reset, and whether output is written is [write] ([genFileMap[file]]). *)
Definition beginApiFile (i : nat) (write : bool) : M unit :=
  modify (set_Buffer []) ;;;
  modify (set_writeOutput write) ;;;
  modify (set_g_file (Some i)) ;;;
  modify (set_usedPackages ∅) ;;;
  modify (set_packageNames ∅) ;;;
  modify (set_usedPackageNames ∅) ;;;
  modify (set_addedImports ∅) ;;;
  P [].

(** ** The import blocks *)

(** [weak] returns whether the ith import of the current file is a weak
    import. *)
Definition weak (f : FileDescriptor) (i : nat) : bool :=
  bool_decide (Z.of_nat i ∈ WeakDependency (fd_proto f)).

(** The names that [generateImports] collects, in the order in which
    the dependencies introduce them. *)
Definition collectImports : M (list GoPackageName) :=
  f <- currentFile ;;
  foldM (λ (imports : list GoPackageName) '(i, s),
           if weak f i then ret imports
           else if strings_Contains s "/protobuf/" || strings_Contains s "google/api"
                   || strings_Contains s "/googleapis/"
           then ret imports
           else
             packageName <- GoPackageName_ s ;;
             g <- get ;;
             match usedPackages g !! s with
             | None => ret imports
             | Some _ =>
                 if bool_decide (packageName ∈ imports) then ret imports
                 else ret (imports ++ [packageName])
             end)
        [] (zip (seq 0 (length (Dependency (fd_proto f)))) (Dependency (fd_proto f))).

(** The loop over the [imports] map: one quoted line per name, the
    import prefix in front. *)
Definition importLines (imports : list GoPackageName) : M unit :=
  forM_ imports (λ importPath,
    g <- get ;;
    P [dq +:+ ImportPrefix g +:+ importPath +:+ dq]).

Definition generateModelImports (imports : list GoPackageName) : M unit :=
  if decide (length imports = 0) then ret tt
  else
    P ["import ("] ;;;
    importLines imports ;;;
    P [")"] ;;;
    P [] ;;;
    P [].

Definition generateApiImports (imports : list GoPackageName) (hasBinding : bool) : M unit :=
  P ["import ("] ;;;
  P [quoted "github.com/gin-gonic/gin"] ;;;
  (if hasBinding then P [quoted "github.com/gin-gonic/gin/binding"] else ret tt) ;;;
  P [] ;;;
  g <- get ;;
  P [dq; Param_get g "repo"; "/router" +:+ dq] ;;;
  importLines imports ;;;
  P [")"] ;;;
  P [] ;;;
  P [].

(** [generateImports]: [order] arranges the collected names the way the
    map iteration of this run does. *)
Definition generateImports (order : list GoPackageName → list GoPackageName)
    (typ : string) (hasBinding : bool) : M unit :=
  imports <- collectImports ;;
  if decide (typ = "model") then generateModelImports (order imports)
  else generateApiImports (order imports) hasBinding.

(** ** [main], up to the start of generation *)

Definition wrapStage : M unit :=
  g <- get ;;
  (if decide (length (FileToGenerate (Request g)) = 0)
   then Fail Fail_NoFilesToGenerate else ret tt) ;;;
  CommandLineParameters (GetString (Parameter_ (Request g))) ;;;
  WrapTypes.

Definition resolve : M unit :=
  wrapStage ;;;
  SetPackageNames ;;;
  BuildTypeNameMap.

(** ** Notions used to state the properties *)

(** The state in which a run ends. *)
Definition final {A} (r : Result A) : Generator :=
  match r with
  | Ok _ g => g
  | Exit _ g => g
  end.

(** [m] keeps [R] between the state it starts in and the state it ends
    in, whether it returns or exits. *)
Definition keeps {A} (R : relation Generator) (m : M A) : Prop :=
  ∀ g, R g (final (m g)).

(** The field [f] has the same value in both states. *)
Definition same {T} (f : Generator → T) : relation Generator :=
  λ g g', f g' = f g.

(** What one call of [P] does to the state, and a run of calls. *)
Definition emit (line : string) (g : Generator) : Generator :=
  if writeOutput g then set_Buffer (Buffer g ++ [line]) g else g.

Definition emits (lines : list string) (g : Generator) : Generator :=
  foldl (λ g line, emit line g) g lines.

(** A [paths] value that [CommandLineParameters] refuses. *)
Definition unknownPathType (v : string) : Prop :=
  v ≠ "import" ∧ v ≠ "source_relative".

(** The path type that a parameter map selects, from [old]. *)
Definition pathTypeOf (m : gmap string string) (old : pathType) : pathType :=
  match m !! "paths" with
  | Some v => if decide (v = "import") then pathTypeImport
              else if decide (v = "source_relative") then pathTypeSourceRelative
              else old
  | None => old
  end.

(** What the loop of [CommandLineParameters] over the map [m] makes of
    the state [g]: the fields named by the keys of [m] are set, the
    rest is as before. *)
Record applied (m : gmap string string) (g g' : Generator) : Prop := {
  applied_ImportPrefix : ImportPrefix g' = default (ImportPrefix g) (m !! "import_prefix");
  applied_PackageImportPath :
    PackageImportPath g' = default (PackageImportPath g) (m !! "import_path");
  applied_pathType : g_pathType g' = pathTypeOf m (g_pathType g);
  applied_ImportMap : ∀ n,
    ImportMap g' !! n = match m !! String "M" n with
                        | Some v => Some v
                        | None => ImportMap g !! n
                        end;
  applied_Param : Param g' = Param g;
  applied_Request : Request g' = Request g;
  applied_Response : Response g' = Response g;
  applied_Buffer : Buffer g' = Buffer g;
  applied_fs : fs g' = fs g;
}.

(** The parameter map that [CommandLineParameters] builds. *)
Definition paramsOf (parameter : string) : gmap string string :=
  foldl addParam ∅ (strings_Split parameter ","%char).

(** The line of an import block for the dependency [name]. *)
Definition importLine (g : Generator) (name : GoPackageName) : string :=
  indent g +:+ (dq +:+ ImportPrefix g +:+ name +:+ dq).

(** The lines of the two import blocks. *)
Definition modelImportLines (g : Generator) (imports : list GoPackageName) : list string :=
  match imports with
  | [] => []
  | _ => [indent g +:+ "import ("] ++ (importLine g <$> imports)
         ++ [indent g +:+ ")"; indent g +:+ ""; indent g +:+ ""]
  end.

Definition apiImportLines (g : Generator) (imports : list GoPackageName) (hasBinding : bool)
    : list string :=
  [indent g +:+ "import ("; indent g +:+ quoted "github.com/gin-gonic/gin"]
  ++ (if hasBinding then [indent g +:+ quoted "github.com/gin-gonic/gin/binding"] else [])
  ++ [indent g +:+ ""; indent g +:+ (dq +:+ Param_get g "repo" +:+ ("/router" +:+ dq))]
  ++ (importLine g <$> imports)
  ++ [indent g +:+ ")"; indent g +:+ ""; indent g +:+ ""].

(** The names under which [BuildTypeNameMap] stores the objects of a
    file, and all the insertions of a run, in the order of the loops. *)
Definition entriesOf (f : FileDescriptor) : list (string * Object) :=
  ((λ e, (dottedPkgOf f +:+ dottedSlice (EnumDescriptor_TypeName e), ObjEnum e)) <$> enum f)
  ++ ((λ d, (dottedPkgOf f +:+ dottedSlice (Descriptor_TypeName d), ObjDescriptor d)) <$> desc f).

Definition indexEntries (fs : list FileDescriptor) : list (string * Object) :=
  concat (entriesOf <$> fs).

Definition insertAll (m : gmap string Object) (l : list (string * Object)) : gmap string Object :=
  foldl (λ m p, <[p.1 := p.2]> m) m l.

(** The files selected for generation, behind [g.genFiles]. *)
Definition genFilesOf (g : Generator) : list FileDescriptor :=
  omap (λ i, allFiles g !! i) (genFiles g).

(** The package name that [SetPackageNames] computes for a file. *)
Definition computedPackageName (g : Generator) (f : FileDescriptor) : GoPackageName :=
  packageNameFor g (defaultPackageNamesOf (genFilesOf g)) f.

(** The two exits of the consistency check of [SetPackageNames]. *)
Definition inconsistency (e : Fatal) : Prop :=
  ∃ a b, a ≠ b ∧ (e = Fail_InconsistentImportPaths a b ∨ e = Fail_InconsistentPackageNames a b).

(** [F] is [F0] with the package names of the files at [named] set. *)
Definition namesSet (g0 : Generator) (dpn : gmap GoImportPath GoPackageName)
    (F0 F : list FileDescriptor) (named : list nat) : Prop :=
  ∀ i f0, F0 !! i = Some f0 →
    ∃ f, F !! i = Some f ∧ fd_proto f = fd_proto f0 ∧ importPath f = importPath f0 ∧
         (i ∈ named → packageName f = packageNameFor g0 dpn f0).

(** The positions in [genFiles] point into [allFiles]. *)
Definition genFilesValid (g : Generator) : Prop :=
  Forall (λ i, is_Some (allFiles g !! i)) (genFiles g).

(** [d'] is the descriptor [d], but for the slices of its children. *)
Definition sameMessage (d d' : Descriptor) : Prop :=
  d_common d' = d_common d ∧ d_proto d' = d_proto d ∧ d_parent d' = d_parent d ∧
  d_addr d' = d_addr d.

(** [fd] is the file that [WrapTypes] makes of the [k]-th proto [f] of
    the request, in a run with the parameters of [g0]. *)
Definition wrappedAt (g0 : Generator) (genFileNames : gmap string bool) (k : nat)
    (f : FileDescriptorProto) (fd : FileDescriptor) : Prop :=
  fd_proto fd = f ∧
  importPath fd = fileImportPath g0 genFileNames f ∧
  Forall2 sameMessage
    (wrapDescriptors {| c_file := k; c_proto := f;
                        c_importPath := fileImportPath g0 genFileNames f |})
    (desc fd).

(** The entries of [allFilesByName] point into [allFiles]. *)
Definition byNameValid (g : Generator) : Prop :=
  ∀ n i, allFilesByName g !! n = Some i → i < length (allFiles g).

(** The [genFileNames] map of [WrapTypes]. *)
Definition genFileNamesOf (names : list string) : gmap string bool :=
  foldl (λ m n, <[n := true]> m) ∅ names.

(** The state of [WrapTypes] after the protos [files] have been wrapped. *)
Record wrapInv (g0 : Generator) (genFileNames : gmap string bool)
    (files : list FileDescriptorProto) (g : Generator) : Prop := {
  wi_ImportMap : ImportMap g = ImportMap g0;
  wi_PackageImportPath : PackageImportPath g = PackageImportPath g0;
  wi_Request : Request g = Request g0;
  wi_length : length (allFiles g) = length files;
  wi_files : ∀ k f, files !! k = Some f → ∃ fd, allFiles g !! k = Some fd ∧
                                              wrappedAt g0 genFileNames k f fd;
  wi_byName : byNameValid g;
}.

(** Two files that differ at most in their imported descriptors and in
    their package name. *)
Definition coreEq (a b : FileDescriptor) : Prop :=
  fd_proto a = fd_proto b ∧ desc a = desc b ∧ enum a = enum b ∧ ext a = ext b ∧
  importPath a = importPath b.

(** [df] is the file behind the public dependency [index] of [fd], among
    the files [F] known by the names [N]. *)
Definition publicDependencyFile (F : list FileDescriptor) (N : gmap string nat)
    (fd : FileDescriptor) (index : Z) (df : FileDescriptor) : Prop :=
  (0 ≤ index)%Z ∧
  ∃ name i, Dependency (fd_proto fd) !! Z.to_nat index = Some name ∧
            N !! name = Some i ∧ F !! i = Some df.

(** The imported descriptors of the file [fd] at position [j] are those
    of its public dependencies, in order. *)
Definition importsOK (F : list FileDescriptor) (N : gmap string nat) (j : nat)
    (fd : FileDescriptor) : Prop :=
  ∃ dfs, Forall2 (publicDependencyFile F N fd) (PublicDependency (fd_proto fd)) dfs ∧
         imp fd = concat (importedFrom (commonOf j fd) <$> dfs).

(** [m] is declared at nesting depth [depth] inside (or as) the message
    [p]; and at depth [depth] below the top level of the file [f]. *)
Inductive messageWithin : DescriptorProto → nat → DescriptorProto → Prop :=
  | within_self m : messageWithin m 0 m
  | within_nested p n depth m :
      n ∈ dp_NestedType p → messageWithin n depth m → messageWithin p (S depth) m.

Definition declaredMessage (f : FileDescriptorProto) (depth : nat) (m : DescriptorProto) : Prop :=
  ∃ top, top ∈ MessageType f ∧ messageWithin top depth m.

(** The loop of [wrapThisDescriptor] over the nested messages of the
    wrapped message [me], as a function of its own. *)
Fixpoint wrapNested (me : Descriptor) (file : common) (sl : list Descriptor) (i : nat)
    (l : list DescriptorProto) : list Descriptor :=
  match l with
  | [] => sl
  | n :: r => wrapNested me file (wrapThisDescriptor sl n (Some me) file i) (S i) r
  end.

(** The message [m], declared at depth [depth] below a message wrapped
    with parent [parent], has the descriptor [d]. *)
Definition wrapsAt (parent : option Descriptor) (depth : nat) (m : DescriptorProto)
    (d : Descriptor) : Prop :=
  d_proto d = m ∧ (depth = 0 → d_parent d = parent) ∧ (0 < depth → is_Some (d_parent d)).

(** The path of the handler manifest. *)
Definition manifestPath (g : Generator) : string := Param_get g "path" +:+ "/handler.json".

(** The state after the lines [lines] have been printed with [P]. *)
Definition printed (lines : list string) (g : Generator) : Generator :=
  emits ((λ line, indent g +:+ line) <$> lines) g.

(** The lines that the blocks of [generateClientMethod] print. *)
Definition routeLinesOf (opts : HttpRule) (middlewares : list string) : list string :=
  match Pattern opts with
  | HttpRule_Get url => [routeLine "GET" url middlewares]
  | HttpRule_Post url => [routeLine "POST" url middlewares]
  | _ => []
  end.

Definition isGetOf (opts : HttpRule) : bool :=
  match Pattern opts with
  | HttpRule_Get _ => true
  | _ => false
  end.

Definition noJSONOf (opts : HttpRule) : bool :=
  negb (bool_decide (ResponseBody opts = "")) && negb (bool_decide (ResponseBody opts = "json")).

(** The line that binds the input, with or without the error check. *)
Definition bindLineOf (isGet bindCheck : bool) (binding : string) : string :=
  if bindCheck then
    if isGet then "if err := ctx.ShouldBindQuery(&input); err != nil {"
    else "if err := ctx." +:+ (bindingChoice binding).1 +:+ "(&input, binding."
         +:+ (bindingChoice binding).2 +:+ "); err != nil {"
  else
    if isGet then "_ = ctx.ShouldBindQuery(&input)"
    else "_ = ctx." +:+ (bindingChoice binding).1 +:+ "(&input, binding."
         +:+ (bindingChoice binding).2 +:+ ")".

Definition bindLinesOf (needBind isGet bindCheck : bool) (binding inType outType gec : string)
    : list string :=
  if needBind then
    ["input, output := " +:+ inType +:+ "{}, " +:+ outType +:+ "{}"; "";
     bindLineOf isGet bindCheck binding]
    ++ (if bindCheck then ["router.Error(ctx, " +:+ gec +:+ ", err)"; "return"; "}"] else [])
    ++ [""]
  else
    ["input := " +:+ inType +:+ "{}"; "var output " +:+ outType; ""].

Definition callLinesOf (noJSON : bool) (methName gec : string) : list string :=
  (if noJSON then ["_ = h." +:+ methName +:+ "(ctx, &input, &output)"]
   else ["err := h." +:+ methName +:+ "(ctx.Copy(), &input, &output)"; "if err != nil {";
         "router.Error(ctx, " +:+ gec +:+ ", err)"; "return"; "}"; ""; "router.JSON(ctx, &output)"])
  ++ ["})"; ""].

(** The values that [generateClientMethod] reads from the environment
    and from the directives. *)
Definition gecOf (g : Generator) : string :=
  let gec := default "" (env g !! "GEN_ERROR_CODE") in
  if decide (gec = "") then "500" else gec.

Definition middlewaresOf (customAnnotations : gmap string string) : list string :=
  match customAnnotations !! "middleware" with
  | Some val => strings_Split val ","%char
  | None => []
  end.

Definition bindCheckOf (customAnnotations : gmap string string) : bool :=
  match customAnnotations !! "bindcheck" with
  | Some val => negb (strings_EqualFold val "false")
  | None => true
  end.

Definition bindingOf (customAnnotations : gmap string string) : string :=
  default "json" (customAnnotations !! "binding").

Definition methNameOf (method : MethodDescriptorProto) : string :=
  let methName := CamelCase (GetString (mp_Name method)) in
  if default false (reservedClientName !! methName) then methName +:+ "_" else methName.

Definition outTypeOf (reqServ outType : string) : string :=
  if strings_HasPrefix outType (reqServ +:+ ".")
  then strings_TrimPrefix outType (reqServ +:+ ".") else outType.

(** All the lines of one method. *)
Definition methodLinesOf (g : Generator) (reqServ : string) (method : MethodDescriptorProto)
    (customAnnotations : gmap string string) (opts : HttpRule) (needBind : bool)
    (inType outType : string) : list string :=
  routeLinesOf opts (middlewaresOf customAnnotations)
  ++ bindLinesOf needBind (isGetOf opts) (bindCheckOf customAnnotations)
                 (bindingOf customAnnotations) inType (outTypeOf reqServ outType) (gecOf g)
  ++ callLinesOf (noJSONOf opts) (methNameOf method) (gecOf g).

(** A line that binds the input: one of the lines that the bind block
    prints for some choice of strategy. *)
Definition bindCall (line : string) : Prop :=
  ∃ isGet bindCheck binding, line = bindLineOf isGet bindCheck binding.

(** The line that binds the input from the query string. *)
Definition queryBindLine (bindCheck : bool) : string :=
  if bindCheck then "if err := ctx.ShouldBindQuery(&input); err != nil {"
  else "_ = ctx.ShouldBindQuery(&input)".

(** A line that opens a route: one of the lines that the route block
    prints for some verb, url and list of middlewares. *)
Definition routeCall (line : string) : Prop :=
  ∃ verb url middlewares, line = routeLine verb url middlewares.


(** The buffer after [lines] have been printed from the state [g]. *)
Definition bufferWith (g : Generator) (lines : list string) : list string :=
  Buffer g ++ (if writeOutput g then (λ line, indent g +:+ line) <$> lines else []).

(** The [k]-th name that the renaming loop of [GoPackageName] tries. *)
Definition candidate (orig : GoPackageName) (k : nat) : GoPackageName :=
  match k with
  | 0 => orig
  | S _ => orig +:+ strconv_Itoa k
  end.

End Generator.

(** ** An instance of the outside helpers

    Simple stand-ins, used to run the model on concrete requests: names
    are capitalised, joined with an underscore or a dot, and kept as
    they are when cleaned; the JSON codec knows the empty object that the
    driver script writes before it runs the plugin; the case mapping is
    the one of ASCII. *)

Definition ascii_lower (c : ascii) : ascii :=
  let n := nat_of_ascii c in
  if bool_decide (65 <= n <= 90)%nat then ascii_of_nat (n + 32) else c.

Fixpoint ascii_ToLower (s : string) : string :=
  match s with
  | "" => ""
  | String c r => String (ascii_lower c) (ascii_ToLower r)
  end.

Definition ascii_EqualFold (a b : string) : bool :=
  bool_decide (ascii_ToLower a = ascii_ToLower b).

Definition ascii_upper (c : ascii) : ascii :=
  let n := nat_of_ascii c in
  if bool_decide (97 <= n <= 122)%nat then ascii_of_nat (n - 32) else c.

Definition sample_CamelCase (s : string) : string :=
  match s with
  | "" => ""
  | String c r => String (ascii_upper c) r
  end.

Definition sample_baseName (name : string) : string :=
  let name := match strings_LastIndex name "/"%char with
              | Some i => str_drop (S i) name
              | None => name
              end in
  match strings_LastIndex name "."%char with
  | Some i => str_take i name
  | None => name
  end.

Definition sample_Dir (name : string) : string :=
  match strings_LastIndex name "/"%char with
  | Some i => str_take i name
  | None => "."
  end.

Definition sample_Unmarshal (bts : string) : option (gmap string string) :=
  if decide (bts = "{}") then Some ∅ else None.

Definition sample_Marshal (m : gmap string string) : string :=
  "{" +:+ strings_Join ((λ kv, quoted kv.1 +:+ ":" +:+ quoted kv.2) <$> map_to_list m) "," +:+ "}".

Definition sampleExternals : Externals :=
  {| CamelCase := sample_CamelCase;
     CamelCaseSlice := λ l, sample_CamelCase (strings_Join l "_");
     cleanPackageName := λ s, s;
     baseName := sample_baseName;
     dottedSlice := λ l, strings_Join l ".";
     messagePath := 4; messageMessagePath := 3; enumPath := 5; messageEnumPath := 4;
     path_Dir := sample_Dir;
     filepath_Dir := sample_Dir;
     json_Unmarshal := sample_Unmarshal;
     json_Marshal := sample_Marshal;
     regAnnotation_FindStringSubmatch := λ _, [];
     strings_ToLower := ascii_ToLower;
     strings_EqualFold := ascii_EqualFold |}.

(** ** Concrete requests *)

Definition message (name : string) (fields : list FieldDescriptorProto)
    (nestedTypes : list DescriptorProto) : DescriptorProto :=
  Build_DescriptorProto (Some name) fields nestedTypes [] [] false.

Definition stringField (name : string) : FieldDescriptorProto :=
  {| fp_Name := Some name; fp_Type := TYPE_STRING; fp_TypeName := None |}.

Definition method (name input output : string) (pattern : HttpRule_Pattern)
    : MethodDescriptorProto :=
  {| mp_Name := Some name; mp_InputType := Some input; mp_OutputType := Some output;
     mp_Options := Some {| E_Http := Some {| Pattern := pattern; ResponseBody := "" |} |} |}.

(** [common.proto]: package [common], an empty message [Nothing] with a
    nested message [Deep], and an enum [Color]. *)
Definition common_proto : FileDescriptorProto :=
  {| Name := Some "common.proto"; Package := Some "common"; Dependency := [];
     PublicDependency := []; WeakDependency := [];
     MessageType := [message "Nothing" [] [message "Deep" [] []]];
     EnumType := [{| ep_Name := Some "Color"; ep_Value := [("RED", 0%Z)] |}];
     Service := []; Extension := []; GoPackage := None; SourceCodeInfo := [];
     Syntax := Some "proto3" |}.

(** [user/user.proto]: package [user], imports [common.proto] publicly,
    a message [Profile] with one field, and a service [user]. *)
Definition user_service : ServiceDescriptorProto :=
  {| sp_Name := Some "user";
     sp_Method := [ method "get" ".user.Profile" ".common.Nothing" (HttpRule_Get "/v1/profile");
                    method "ping" ".common.Nothing" ".user.Profile" (HttpRule_Post "/v1/ping");
                    method "replace" ".user.Profile" ".user.Profile" (HttpRule_Put "/v1/profile") ] |}.

Definition user_proto : FileDescriptorProto :=
  {| Name := Some "user/user.proto"; Package := Some "user"; Dependency := ["common.proto"];
     PublicDependency := [0%Z]; WeakDependency := [];
     MessageType := [message "Profile" [stringField "name"] []]; EnumType := [];
     Service := [user_service]; Extension := []; GoPackage := None; SourceCodeInfo := [];
     Syntax := Some "proto3" |}.

Definition user_request : CodeGeneratorRequest :=
  {| FileToGenerate := ["user/user.proto"];
     Parameter_ := Some "repo=example.com/app,path=out";
     ProtoFile := [common_proto; user_proto] |}.

(** Two files of package [shop] that both declare a message [Item]. *)
Definition shop_a_proto : FileDescriptorProto :=
  {| Name := Some "a.proto"; Package := Some "shop"; Dependency := [];
     PublicDependency := []; WeakDependency := [];
     MessageType := [message "Item" [stringField "sku"] []]; EnumType := [];
     Service := []; Extension := []; GoPackage := None; SourceCodeInfo := [];
     Syntax := Some "proto3" |}.

Definition shop_b_proto : FileDescriptorProto :=
  {| Name := Some "b.proto"; Package := Some "shop"; Dependency := [];
     PublicDependency := []; WeakDependency := [];
     MessageType := [message "Item" [] []]; EnumType := [];
     Service := []; Extension := []; GoPackage := None; SourceCodeInfo := [];
     Syntax := Some "proto3" |}.

Definition shop_request : CodeGeneratorRequest :=
  {| FileToGenerate := ["a.proto"];
     Parameter_ := Some "repo=example.com/app,path=out";
     ProtoFile := [shop_a_proto; shop_b_proto] |}.

(** A request to generate two files of different packages. *)
Definition users_proto : FileDescriptorProto :=
  {| Name := Some "u.proto"; Package := Some "users"; Dependency := [];
     PublicDependency := []; WeakDependency := [];
     MessageType := [message "User" [stringField "id"] []]; EnumType := [];
     Service := []; Extension := []; GoPackage := None; SourceCodeInfo := [];
     Syntax := Some "proto3" |}.

Definition mixed_request : CodeGeneratorRequest :=
  {| FileToGenerate := ["a.proto"; "u.proto"];
     Parameter_ := Some "repo=example.com/app,path=out";
     ProtoFile := [shop_a_proto; users_proto] |}.

(** Four files, one for each way in which an import path is set. *)
Definition plain_proto (name : string) (goPackage : option string) : FileDescriptorProto :=
  {| Name := Some name; Package := Some "demo"; Dependency := [];
     PublicDependency := []; WeakDependency := []; MessageType := []; EnumType := [];
     Service := []; Extension := []; GoPackage := goPackage; SourceCodeInfo := [];
     Syntax := Some "proto3" |}.

Definition precedence_request : CodeGeneratorRequest :=
  {| FileToGenerate := ["g.proto"];
     Parameter_ := Some "Mm.proto=over/ride,import_path=quux/bar";
     ProtoFile := [ plain_proto "m.proto" (Some "example.com/ignored");
                    plain_proto "g.proto" (Some "example.com/ignored");
                    plain_proto "p.proto" (Some "example.com/pkg;pkg");
                    plain_proto "dir/d.proto" None ] |}.

(** [orders/orders.proto]: package [orders], imports [common.proto]
    (not publicly); the message [Void] declares no field. *)
Definition get_method : MethodDescriptorProto :=
  method "get" ".orders.Query" ".orders.Order" (HttpRule_Get "/v1/order").

Definition ping_method : MethodDescriptorProto :=
  method "ping" ".common.Nothing" ".orders.Order" (HttpRule_Post "/v1/ping").

Definition clear_method : MethodDescriptorProto :=
  method "clear" ".orders.Void" ".orders.Order" (HttpRule_Post "/v1/clear").

Definition replace_method : MethodDescriptorProto :=
  method "replace" ".orders.Order" ".orders.Order" (HttpRule_Put "/v1/order").

Definition orders_service : ServiceDescriptorProto :=
  {| sp_Name := Some "orders"; sp_Method := [get_method; ping_method; clear_method] |}.

Definition orders_proto : FileDescriptorProto :=
  {| Name := Some "orders/orders.proto"; Package := Some "orders";
     Dependency := ["common.proto"]; PublicDependency := []; WeakDependency := [];
     MessageType := [ message "Order" [stringField "id"] [];
                      message "Query" [stringField "id"] [];
                      message "Void" [] [] ];
     EnumType := []; Service := [orders_service]; Extension := []; GoPackage := None;
     SourceCodeInfo := []; Syntax := Some "proto3" |}.

Definition orders_request : CodeGeneratorRequest :=
  {| FileToGenerate := ["orders/orders.proto"];
     Parameter_ := Some "repo=example.com/app,path=out";
     ProtoFile := [common_proto; orders_proto] |}.

(** The state in which [generateApiFile] reaches the services of
    [orders/orders.proto], the file at position 1, on the disk [disk]. *)
Definition ordersApi (disk : gmap string string) : Generator :=
  final ((@resolve sampleExternals ;;; beginApiFile 1 true) (New orders_request disk ∅)).

Definition noFile : FileDescriptor :=
  {| fd_proto := plain_proto "" None; desc := []; enum := []; ext := []; imp := [];
     comments := ∅; importPath := ""; packageName := ""; proto3 := false |}.

(** The wrapped file at position [i]. *)
Definition fileAt (i : nat) (g : Generator) : FileDescriptor :=
  default noFile (allFiles g !! i).

Section Proofs.
Context `{Externals}.

(** ** Runs: sequencing, loops and frames *)

Lemma bind_Ok {A B} (m : M A) (k : A → M B) g b g' :
  bind m k g = Ok b g' ↔ ∃ a g1, m g = Ok a g1 ∧ k a g1 = Ok b g'.
Proof.
  unfold bind. destruct (m g) as [a g1|e g1]; split.
  - intros Hk. by exists a, g1.
  - by intros (a' & g2 & [= -> ->] & Hk).
  - done.
  - by intros (a' & g2 & [=] & _).
Qed.

Lemma bind_Exit {A B} (m : M A) (k : A → M B) g e g' :
  bind m k g = Exit e g' ↔
  m g = Exit e g' ∨ ∃ a g1, m g = Ok a g1 ∧ k a g1 = Exit e g'.
Proof.
  unfold bind. destruct (m g) as [a g1|e1 g1]; split.
  - intros Hk. right. by exists a, g1.
  - intros [[=]|(a' & g2 & [= -> ->] & Hk)]. done.
  - intros [= -> ->]. by left.
  - intros [[= -> ->]|(a' & g2 & [=] & _)]. done.
Qed.

Global Instance same_preorder {T} (f : Generator → T) : PreOrder (same f).
Proof. split; [by intros g | intros g1 g2 g3; unfold same; congruence]. Qed.

Section Keeps.
Context (R : relation Generator) `{!PreOrder R}.

Lemma keeps_ret {A} (a : A) : keeps R (ret a).
Proof. intros g. simpl. reflexivity. Qed.

Lemma keeps_Fail {A} e : keeps R (@Fail A e).
Proof. intros g. simpl. reflexivity. Qed.

Lemma keeps_get : keeps R get.
Proof. intros g. simpl. reflexivity. Qed.

Lemma keeps_orPanic {A} what (x : option A) : keeps R (orPanic what x).
Proof. destruct x; [apply keeps_ret | apply keeps_Fail]. Qed.

Lemma keeps_modify f : (∀ g, R g (f g)) → keeps R (modify f).
Proof. intros Hf g. apply Hf. Qed.

Lemma keeps_bind {A B} (m : M A) (k : A → M B) :
  keeps R m → (∀ a, keeps R (k a)) → keeps R (bind m k).
Proof.
  intros Hm Hk g. unfold bind. specialize (Hm g).
  destruct (m g) as [a g1|e g1]; simpl in *; [|done].
  etrans; [exact Hm | apply Hk].
Qed.

Lemma keeps_forM_ {A} (l : list A) (body : A → M unit) :
  (∀ x, keeps R (body x)) → keeps R (forM_ l body).
Proof.
  intros Hb. induction l as [|x l IH]; simpl.
  - apply keeps_ret.
  - apply keeps_bind; [apply Hb | intros _; apply IH].
Qed.

Lemma keeps_forI_ {A} i (l : list A) (body : nat → A → M unit) :
  (∀ i x, keeps R (body i x)) → keeps R (forI_ i l body).
Proof.
  intros Hb. revert i. induction l as [|x l IH]; intros i; simpl.
  - apply keeps_ret.
  - apply keeps_bind; [apply Hb | intros _; apply IH].
Qed.

Lemma keeps_foldM {A B} (f : B → A → M B) b (l : list A) :
  (∀ b x, keeps R (f b x)) → keeps R (foldM f b l).
Proof.
  intros Hf. revert b. induction l as [|x l IH]; intros b; simpl.
  - apply keeps_ret.
  - apply keeps_bind; [apply Hf | intros b'; apply IH].
Qed.

Lemma keeps_mapM {A B} (f : A → M B) (l : list A) :
  (∀ x, keeps R (f x)) → keeps R (mapM f l).
Proof.
  intros Hf. induction l as [|x l IH]; simpl.
  - apply keeps_ret.
  - apply keeps_bind; [apply Hf | intros y].
    apply keeps_bind; [apply IH | intros ys; apply keeps_ret].
Qed.
End Keeps.

Lemma keeps_Ok {A} R (m : M A) g a g' : keeps R m → m g = Ok a g' → R g g'.
Proof. intros Hm Hg. specialize (Hm g). by rewrite Hg in Hm. Qed.

Lemma keeps_Exit {A} R (m : M A) g e g' : keeps R m → m g = Exit e g' → R g g'.
Proof. intros Hm Hg. specialize (Hm g). by rewrite Hg in Hm. Qed.

(** One step of a frame proof: split the run at its binds and branches. *)
Ltac keeps_step :=
  match goal with
  | |- PreOrder _ => exact _
  | |- keeps _ (bind _ _) => apply keeps_bind; [exact _ | | intros ?]
  | |- keeps _ (ret _) => apply keeps_ret; exact _
  | |- keeps _ (Fail _) => apply keeps_Fail; exact _
  | |- keeps _ get => apply keeps_get; exact _
  | |- keeps _ (orPanic _ _) => apply keeps_orPanic; exact _
  | |- keeps _ (modify _) => apply keeps_modify; intros ?; reflexivity
  | |- keeps _ (forM_ _ _) => apply keeps_forM_; [exact _ | intros ?]
  | |- keeps _ (forI_ _ _ _) => apply keeps_forI_; [exact _ | intros ? ?]
  | |- keeps _ (foldM _ _ _) => apply keeps_foldM; [exact _ | intros ? ?]
  | |- keeps _ (mapM _ _) => apply keeps_mapM; [exact _ | intros ?]
  | |- keeps _ (if ?b then _ else _) => destruct b
  | |- keeps _ (match ?x with _ => _ end) => destruct x
  | |- keeps _ (let '(_, _) := ?x in _) => destruct x
  end.

Ltac keeps_run := repeat (first [ assumption | keeps_step ]).

(** ** [P] and the lines it writes *)

Lemma P_emit atoms g :
  P atoms g = Ok tt (emit (indent g +:+ String.concat "" atoms) g).
Proof. unfold P, bind, get, emit, modify. by destruct (writeOutput g). Qed.

Lemma emit_writeOutput line g : writeOutput (emit line g) = writeOutput g.
Proof. unfold emit. by destruct (writeOutput g) eqn:E. Qed.

Lemma emit_indent line g : indent (emit line g) = indent g.
Proof. unfold emit. by destruct (writeOutput g). Qed.

Lemma emit_Buffer line g :
  Buffer (emit line g) = Buffer g ++ (if writeOutput g then [line] else []).
Proof. unfold emit. destruct (writeOutput g); simpl; by rewrite ?app_nil_r. Qed.

Lemma emits_cons l ls g : emits (l :: ls) g = emits ls (emit l g).
Proof. reflexivity. Qed.

Lemma emits_writeOutput lines g : writeOutput (emits lines g) = writeOutput g.
Proof.
  revert g. induction lines as [|l ls IH]; intros g; [done|].
  by rewrite emits_cons, IH, emit_writeOutput.
Qed.

Lemma emits_indent lines g : indent (emits lines g) = indent g.
Proof.
  revert g. induction lines as [|l ls IH]; intros g; [done|].
  by rewrite emits_cons, IH, emit_indent.
Qed.

Lemma emits_Buffer lines g :
  Buffer (emits lines g) = Buffer g ++ (if writeOutput g then lines else []).
Proof.
  revert g. induction lines as [|l ls IH]; intros g.
  - simpl. destruct (writeOutput g); by rewrite app_nil_r.
  - rewrite emits_cons, IH, emit_Buffer, emit_writeOutput.
    destruct (writeOutput g); by rewrite <- ?app_assoc.
Qed.

Lemma emits_app l1 l2 g : emits (l1 ++ l2) g = emits l2 (emits l1 g).
Proof. unfold emits. by rewrite foldl_app. Qed.

Lemma emit_same {T} (f : Generator → T) line :
  (∀ v g, f (set_Buffer v g) = f g) → ∀ g, f (emit line g) = f g.
Proof. intros Hf g. unfold emit. destruct (writeOutput g); [apply Hf | done]. Qed.

Lemma emits_same {T} (f : Generator → T) lines :
  (∀ v g, f (set_Buffer v g) = f g) → ∀ g, f (emits lines g) = f g.
Proof.
  intros Hf. induction lines as [|l ls IH]; intros g; [done|].
  by rewrite emits_cons, IH, emit_same.
Qed.

Lemma keeps_P {T} (f : Generator → T) atoms :
  (∀ v g, f (set_Buffer v g) = f g) → keeps (same f) (P atoms).
Proof. intros Hf g. rewrite P_emit. simpl. by apply emit_same. Qed.

(** ** [CommandLineParameters] *)

Lemma applied_empty g : applied ∅ g g.
Proof. split; try done; intros n; by rewrite lookup_empty. Qed.

Lemma applied_insert m k v g g1 g2 :
  m !! k = None → applied m g g1 → applied {[k := v]} g1 g2 →
  applied (<[k := v]> m) g g2.
Proof.
  intros Hk [H1 H2 H3 H4 H5 H6 H7 H8 H9] [K1 K2 K3 K4 K5 K6 K7 K8 K9].
  split; try congruence.
  - rewrite K1, H1. destruct (decide (k = "import_prefix")) as [->|Hne].
    + by rewrite lookup_singleton_eq, lookup_insert_eq.
    + by rewrite lookup_singleton_ne, lookup_insert_ne.
  - rewrite K2, H2. destruct (decide (k = "import_path")) as [->|Hne].
    + by rewrite lookup_singleton_eq, lookup_insert_eq.
    + by rewrite lookup_singleton_ne, lookup_insert_ne.
  - rewrite K3, H3. unfold pathTypeOf. destruct (decide (k = "paths")) as [->|Hne].
    + rewrite lookup_singleton_eq, lookup_insert_eq, Hk. by repeat case_decide.
    + by rewrite lookup_singleton_ne, lookup_insert_ne.
  - intros n. rewrite K4, H4. destruct (decide (k = String "M" n)) as [->|Hne].
    + by rewrite lookup_singleton_eq, lookup_insert_eq.
    + by rewrite lookup_singleton_ne, lookup_insert_ne.
Qed.

(** One key: either the refused [paths] value, or the field it names. *)
Lemma paramCase_run k v g :
  (k = "paths" ∧ unknownPathType v ∧ paramCase k v g = Exit (Fail_UnknownPathType v) g) ∨
  (¬ (k = "paths" ∧ unknownPathType v) ∧
   ∃ g', paramCase k v g = Ok tt g' ∧ applied {[k := v]} g g').
Proof.
  assert (Hrest : ∀ g', k ≠ "import_prefix" → k ≠ "import_path" → k ≠ "paths" →
            Param g' = Param g → Request g' = Request g →
            Response g' = Response g → Buffer g' = Buffer g → fs g' = fs g →
            ImportPrefix g' = ImportPrefix g → PackageImportPath g' = PackageImportPath g →
            g_pathType g' = g_pathType g →
            (∀ n, ImportMap g' !! n = match ({[k := v]} : gmap string string) !! String "M" n with
                                      | Some v => Some v
                                      | None => ImportMap g !! n
                                      end) →
            applied {[k := v]} g g').
  { intros g' ? ? ? ? ? ? ? ? ? ? ? HM. split; try done.
    - by rewrite lookup_singleton_ne.
    - by rewrite lookup_singleton_ne.
    - unfold pathTypeOf. by rewrite lookup_singleton_ne. }
  unfold paramCase.
  destruct (decide (k = "import_prefix")) as [->|N1].
  { right. split; [by intros [? _]|]. eexists; split; [done|]. by split. }
  destruct (decide (k = "import_path")) as [->|N2].
  { right. split; [by intros [? _]|]. eexists; split; [done|]. by split. }
  destruct (decide (k = "paths")) as [->|N3].
  { destruct (decide (v = "import")) as [->|V1];
      [|destruct (decide (v = "source_relative")) as [->|V2]].
    - right. split; [by intros (_ & ? & _)|]. eexists; split; [done|]. by split.
    - right. split; [by intros (_ & _ & ?)|]. eexists; split; [done|]. by split.
    - by left. }
  right. split; [by intros [? _]|].
  destruct k as [|c rest].
  { eexists; split; [done|].
    apply Hrest; try done; intros n; by rewrite lookup_singleton_ne. }
  destruct (decide (c = "M"%char)) as [->|Hc].
  - eexists; split; [done|]. apply Hrest; try done. simpl. intros n.
    destruct (decide (rest = n)) as [->|Hn].
    + by rewrite lookup_insert_eq, lookup_singleton_eq.
    + rewrite lookup_insert_ne, lookup_singleton_ne by congruence. done.
  - assert (Hret : (match c with
                    | "M"%char => modify (λ g, set_ImportMap (<[rest := v]> (ImportMap g)) g)
                    | _ => ret tt
                    end) g = Ok tt g).
    { destruct c as [[] [] [] [] [] [] [] []]; try done. }
    exists g. split.
    + exact Hret.
    + apply Hrest; try done. intros n. rewrite lookup_singleton_ne by congruence. done.
Qed.

(** The loop over the whole map: it exits exactly on a refused [paths]
    value, and otherwise applies every key. *)
Lemma paramLoop_run m g :
  (∃ v g', m !! "paths" = Some v ∧ unknownPathType v ∧
           paramLoop m g = Exit (Fail_UnknownPathType v) g') ∨
  ((∀ v, m !! "paths" = Some v → ¬ unknownPathType v) ∧
   ∃ g', paramLoop m g = Ok tt g' ∧ applied m g g').
Proof.
  revert g. unfold paramLoop.
  apply (map_fold_weak_ind (λ (acc : M unit) (m : gmap string string), ∀ g,
    (∃ v g', m !! "paths" = Some v ∧ unknownPathType v ∧
             acc g = Exit (Fail_UnknownPathType v) g') ∨
    ((∀ v, m !! "paths" = Some v → ¬ unknownPathType v) ∧
     ∃ g', acc g = Ok tt g' ∧ applied m g g'))).
  - intros g. right. split; [intros v; by rewrite lookup_empty|].
    exists g. split; [done | apply applied_empty].
  - clear m. intros k v m r Hk IH g.
    destruct (IH g) as [(v' & g' & Hv' & Hbad & Hr)|(Hgood & g1 & Hr & Happ)].
    + left. exists v', g'. split_and!; [|done|].
      * rewrite lookup_insert_ne; [done|]. intros ->. by rewrite Hk in Hv'.
      * unfold bind. by rewrite Hr.
    + destruct (paramCase_run k v g1) as [(-> & Hbad & Hc)|(Hnb & g2 & Hc & Happ2)].
      * left. exists v, g1. split_and!; [by rewrite lookup_insert_eq|done|].
        unfold bind. by rewrite Hr.
      * right. split.
        -- intros v'. destruct (decide (k = "paths")) as [->|Hne].
           ++ rewrite lookup_insert_eq. intros [= <-] Hbad. by apply Hnb.
           ++ rewrite lookup_insert_ne by done. apply Hgood.
        -- exists g2. split; [unfold bind; by rewrite Hr|].
           by eapply applied_insert.
Qed.

(** The whole of [CommandLineParameters], started in any state. *)
Lemma CommandLineParameters_run parameter g :
  let m := paramsOf parameter in
  (∃ v g', m !! "paths" = Some v ∧ unknownPathType v ∧
           CommandLineParameters parameter g = Exit (Fail_UnknownPathType v) g') ∨
  ((∀ v, m !! "paths" = Some v → ¬ unknownPathType v) ∧
   ∃ g', CommandLineParameters parameter g = Ok tt g' ∧
         Param g' = m ∧
         ImportPrefix g' =
           (if decide (default (ImportPrefix g) (m !! "import_prefix") = "")
            then default "" (m !! "repo") +:+ "/"
            else default (ImportPrefix g) (m !! "import_prefix")) ∧
         PackageImportPath g' = default (PackageImportPath g) (m !! "import_path") ∧
         g_pathType g' = pathTypeOf m (g_pathType g) ∧
         (∀ n, ImportMap g' !! n = m !! String "M" n) ∧
         Request g' = Request g ∧ Response g' = Response g ∧
         Buffer g' = Buffer g ∧ fs g' = fs g).
Proof.
  intros m.
  set (g0 := set_ImportMap ∅ (set_Param m g)).
  assert (Heq : CommandLineParameters parameter g =
                bind (paramLoop m) (λ _,
                  bind get (λ g, if decide (ImportPrefix g = "")
                                 then modify (set_ImportPrefix (Param_get g "repo" +:+ "/"))
                                 else ret tt)) g0) by reflexivity.
  destruct (paramLoop_run m g0) as [(v & g' & Hv & Hbad & Hr)|(Hgood & g1 & Hr & Happ)].
  - left. exists v, g'. split_and!; [done..|]. rewrite Heq. unfold bind at 1. by rewrite Hr.
  - right. split; [done|]. rewrite Heq. unfold bind at 1. rewrite Hr.
    destruct Happ as [H1 H2 H3 H4 H5 H6 H7 H8 H9]. simpl in *.
    unfold bind, get.
    destruct (decide (ImportPrefix g1 = "")) as [He|He].
    + eexists. split; [done|].
      simpl. rewrite H1 in He. rewrite decide_True by done.
      split_and!; try done.
      * unfold Param_get. by rewrite H5.
      * intros n. rewrite H4. rewrite lookup_empty. by destruct (m !! String "M" n).
    + exists g1. split; [done|].
      rewrite H1 in He. rewrite decide_False by done.
      split_and!; try done.
      intros n. rewrite H4. rewrite lookup_empty. by destruct (m !! String "M" n).
Qed.

(** ** Output file names and the [paths] parameter *)

Lemma goFileName_pathType d pt1 pt2 typ : goFileName d pt1 typ = goFileName d pt2 typ.
Proof. unfold goFileName. destruct (Name d); [|done]. by destruct pt1, pt2. Qed.

(** C9, what the code does: the [paths] parameter is accepted when it
    is [import] or [source_relative] and recorded as the path type of
    the run, and any other value exits with the unknown-path-type
    message; but the path type, which [goFileName] receives and tests,
    does not reach the names of the output files: both branches of the
    test return the same name. *)
Theorem paths_parameter_is_checked_but_names_do_not_depend_on_it parameter g :
  (∀ v, paramsOf parameter !! "paths" = Some v → unknownPathType v →
        ∃ g', CommandLineParameters parameter g = Exit (Fail_UnknownPathType v) g') ∧
  (∀ v, paramsOf parameter !! "paths" = Some v → ¬ unknownPathType v →
        ∃ g', CommandLineParameters parameter g = Ok tt g' ∧
              g_pathType g' = if decide (v = "import") then pathTypeImport
                              else pathTypeSourceRelative) ∧
  (∀ d typ, goFileName d pathTypeImport typ = goFileName d pathTypeSourceRelative typ).
Proof.
  split_and!.
  - intros v Hv Hbad.
    destruct (CommandLineParameters_run parameter g)
      as [(v' & g' & Hv' & _ & Hr)|(Hgood & _)]; simpl in *.
    + exists g'. congruence.
    + by destruct (Hgood v Hv).
  - intros v Hv Hok.
    destruct (CommandLineParameters_run parameter g)
      as [(v' & g' & Hv' & Hbad & _)|(_ & g' & Hr & _ & _ & _ & Hpt & _)]; simpl in *.
    + destruct Hok. congruence.
    + exists g'. split; [done|]. rewrite Hpt. unfold pathTypeOf. rewrite Hv.
      destruct (decide (v = "import")); [done|].
      destruct (decide (v = "source_relative")); [done|]. by destruct Hok.
  - intros d typ. apply goFileName_pathType.
Qed.

(** ** The import prefix and the import blocks *)

Lemma bind_P {B} atoms (k : unit → M B) g :
  bind (P atoms) k g = k tt (emit (indent g +:+ String.concat "" atoms) g).
Proof. unfold bind. by rewrite P_emit. Qed.

Lemma bind_get {B} (k : Generator → M B) g : bind get k g = k g g.
Proof. done. Qed.

Lemma bind_ret {A B} (a : A) (k : A → M B) g : bind (ret a) k g = k a g.
Proof. done. Qed.

Lemma bind_bind {A B C} (m : M A) (k : A → M B) (k' : B → M C) g :
  bind (bind m k) k' g = bind m (λ a, bind (k a) k') g.
Proof. unfold bind. by destruct (m g). Qed.

Lemma importLine_emit line g name : importLine (emit line g) name = importLine g name.
Proof. unfold importLine. by rewrite emit_indent, (emit_same ImportPrefix). Qed.

Lemma importLine_emits lines g name : importLine (emits lines g) name = importLine g name.
Proof. unfold importLine. by rewrite emits_indent, (emits_same ImportPrefix). Qed.

Lemma emit_one line g : emit line g = emits [line] g.
Proof. done. Qed.

Lemma importLine_fmap_emits lines g (l : list GoPackageName) :
  importLine (emits lines g) <$> l = importLine g <$> l.
Proof. apply list_fmap_ext. intros _ x _. apply importLine_emits. Qed.

(** Bring a state reached by calls of [P] to the form [emits lines g]. *)
Ltac emits_norm :=
  rewrite ?emit_one;
  repeat first
    [ rewrite emits_indent | rewrite importLine_fmap_emits
    | rewrite (emits_same Param) by done | rewrite (emits_same ImportPrefix) by done
    | rewrite (emits_same env) by done ];
  rewrite <- ?emits_app.

Lemma importLines_run imports g :
  importLines imports g = Ok tt (emits (importLine g <$> imports) g).
Proof.
  unfold importLines. revert g. induction imports as [|n ns IH]; intros g; [done|].
  cbn [forM_]. rewrite bind_bind, bind_get, bind_P, IH. cbn [fmap list_fmap].
  emits_norm. done.
Qed.

Lemma generateModelImports_run imports g :
  generateModelImports imports g = Ok tt (emits (modelImportLines g imports) g).
Proof.
  unfold generateModelImports, modelImportLines.
  destruct imports as [|n ns]; [done|].
  rewrite decide_False by done.
  set (l := n :: ns).
  rewrite bind_P. unfold bind at 1. rewrite importLines_run.
  rewrite !bind_P, P_emit. emits_norm. done.
Qed.

Lemma generateApiImports_run imports hasBinding g :
  generateApiImports imports hasBinding g = Ok tt (emits (apiImportLines g imports hasBinding) g).
Proof.
  unfold generateApiImports, apiImportLines.
  rewrite !bind_P.
  assert (Hb : ∀ g0 (k : unit → M unit),
             bind (if hasBinding then P [quoted "github.com/gin-gonic/gin/binding"] else ret tt) k g0
             = k tt (emits (if hasBinding
                            then [indent g0 +:+ quoted "github.com/gin-gonic/gin/binding"]
                            else []) g0)).
  { intros g0 k. destruct hasBinding; [by rewrite bind_P | done]. }
  rewrite Hb. rewrite bind_P, bind_get, bind_P.
  unfold bind at 1. rewrite importLines_run. rewrite !bind_P, P_emit.
  unfold Param_get. emits_norm. by destruct hasBinding.
Qed.

(** C10: after [CommandLineParameters] has processed a parameter string
    without an [import_prefix] key, the import prefix is the value of
    [repo] followed by a slash, hence just a slash when [repo] is absent
    too; and every dependency line of the model-file and of the API-file
    import block is that prefix followed by the dependency, in quotes. *)
Theorem default_import_prefix_is_repo_slash parameter req disk environ g' :
  paramsOf parameter !! "import_prefix" = None →
  CommandLineParameters parameter (New req disk environ) = Ok tt g' →
  let prefix := Param_get g' "repo" +:+ "/" in
  ImportPrefix g' = prefix ∧
  (paramsOf parameter !! "repo" = None → ImportPrefix g' = "/") ∧
  ∀ g imports hasBinding,
    ImportPrefix g = ImportPrefix g' → writeOutput g = true →
    let dependencyLines := (λ name, indent g +:+ (dq +:+ prefix +:+ name +:+ dq)) <$> imports in
    (∃ g2 header footer,
        generateModelImports imports g = Ok tt g2 ∧
        Buffer g2 = Buffer g ++ header ++ dependencyLines ++ footer) ∧
    (∃ g2 header footer,
        generateApiImports imports hasBinding g = Ok tt g2 ∧
        Buffer g2 = Buffer g ++ header ++ dependencyLines ++ footer).
Proof.
  intros Hnone Hrun prefix.
  destruct (CommandLineParameters_run parameter (New req disk environ))
    as [(v & g1 & _ & _ & Hr)|(_ & g1 & Hr & HP & HI & _)]; simpl in *; [congruence|].
  assert (g1 = g') as -> by congruence.
  rewrite Hnone in HI. simpl in HI.
  assert (Hprefix : ImportPrefix g' = prefix).
  { rewrite HI. unfold prefix, Param_get. by rewrite HP. }
  split_and!; [done| |].
  - intros Hrepo. rewrite HI. by rewrite Hrepo.
  - intros g imports hasBinding HIP Hw. cbv zeta.
    assert (Hlines : (λ name, indent g +:+ (dq +:+ prefix +:+ name +:+ dq)) <$> imports
                     = importLine g <$> imports).
    { apply list_fmap_ext. intros _ n _. unfold importLine. by rewrite HIP, Hprefix. }
    split.
    + rewrite Hlines. clear Hlines. destruct imports as [|n ns].
      * exists g, [], []. split; [done|]. simpl. by rewrite app_nil_r.
      * exists (emits (modelImportLines g (n :: ns)) g), [indent g +:+ "import ("],
          [indent g +:+ ")"; indent g +:+ ""; indent g +:+ ""].
        split; [apply generateModelImports_run|].
        by rewrite emits_Buffer, Hw.
    + rewrite Hlines.
      exists (emits (apiImportLines g imports hasBinding) g),
        ([indent g +:+ "import ("; indent g +:+ quoted "github.com/gin-gonic/gin"]
         ++ (if hasBinding then [indent g +:+ quoted "github.com/gin-gonic/gin/binding"] else [])
         ++ [indent g +:+ ""; indent g +:+ (dq +:+ Param_get g "repo" +:+ ("/router" +:+ dq))]),
        [indent g +:+ ")"; indent g +:+ ""; indent g +:+ ""].
      split; [apply generateApiImports_run|].
      rewrite emits_Buffer, Hw. unfold apiImportLines. by rewrite <- !app_assoc.
Qed.

(** ** The index of type names *)

Lemma insertAll_app m l1 l2 : insertAll m (l1 ++ l2) = insertAll (insertAll m l1) l2.
Proof. unfold insertAll. by rewrite foldl_app. Qed.

Lemma lookup_insertAll_notin m l n :
  n ∉ l.*1 → insertAll m l !! n = m !! n.
Proof.
  revert m. induction l as [|[n' o'] l IH]; intros m Hn; [done|].
  cbn [insertAll foldl]. rewrite fmap_cons, not_elem_of_cons in Hn. destruct Hn as [Hne Hn].
  fold (insertAll (<[n' := o']> m) l). rewrite IH by done. simpl.
  by rewrite lookup_insert_ne.
Qed.

(** A name that was inserted is mapped to the object of its last
    insertion. *)
Lemma lookup_insertAll_last m l n :
  n ∈ l.*1 →
  ∃ before ob' after, l = before ++ (n, ob') :: after ∧ (n ∉ after.*1) ∧
                      insertAll m l !! n = Some ob'.
Proof.
  revert m. induction l as [|[n' o'] l IH]; intros m Hin; [by apply elem_of_nil in Hin|].
  destruct (decide (n ∈ l.*1)) as [Hl|Hl].
  - destruct (IH (<[n' := o']> m) Hl) as (before & o2 & after & -> & Hafter & Hlk).
    exists ((n', o') :: before), o2, after. split_and!; [done|done|exact Hlk].
  - rewrite fmap_cons in Hin. apply elem_of_cons in Hin as [Heq|Hin]; [|done].
    simpl in Heq. subst n'.
    exists [], o', l. split_and!; [done|done|].
    cbn [insertAll foldl]. fold (insertAll (<[n := o']> m) l).
    rewrite lookup_insertAll_notin by done. simpl. by rewrite lookup_insert_eq.
Qed.

Lemma elem_of_fst {A B} (l : list (A * B)) a b : (a, b) ∈ l → a ∈ l.*1.
Proof. intros Hin. apply list_elem_of_fmap. by exists (a, b). Qed.

Lemma lookup_insertAll_NoDup m l n ob :
  NoDup l.*1 → (n, ob) ∈ l → insertAll m l !! n = Some ob.
Proof.
  intros Hnd Hin.
  destruct (lookup_insertAll_last m l n (elem_of_fst _ _ _ Hin))
    as (before & ob' & after & -> & Hafter & Hlk).
  rewrite Hlk. f_equal.
  rewrite fmap_app, fmap_cons in Hnd. simpl in Hnd.
  apply NoDup_app in Hnd as (_ & Hdisj & Hnd2).
  apply elem_of_app in Hin as [Hin|Hin].
  - destruct (Hdisj n); [by eapply elem_of_fst | by left].
  - apply elem_of_cons in Hin as [[= <-]|Hin]; [done|].
    destruct Hafter. by eapply elem_of_fst.
Qed.

Lemma set_typeNameToObject_twice v v' g :
  set_typeNameToObject v (set_typeNameToObject v' g) = set_typeNameToObject v g.
Proof. reflexivity. Qed.

Lemma indexObjects_run {A} (l : list A) (name : A → string) (ob : A → Object) m g :
  forM_ l (λ x, indexObject (name x) (ob x)) (set_typeNameToObject m g)
  = Ok tt (set_typeNameToObject (insertAll m ((λ x, (name x, ob x)) <$> l)) g).
Proof.
  revert m. induction l as [|x l IH]; intros m; [done|].
  cbn [forM_]. unfold bind at 1. unfold indexObject at 1, modify. simpl typeNameToObject.
  rewrite set_typeNameToObject_twice. by rewrite IH.
Qed.

Lemma BuildTypeNameMap_run g :
  BuildTypeNameMap g
  = Ok tt (set_typeNameToObject (insertAll ∅ (indexEntries (allFiles g))) g).
Proof.
  unfold BuildTypeNameMap. unfold bind at 1, modify at 1. rewrite bind_get.
  change (allFiles (set_typeNameToObject ∅ g)) with (allFiles g).
  generalize (∅ : gmap string Object) as m. generalize (allFiles g) as files.
  induction files as [|f files IH]; intros m; [done|].
  cbn [forM_]. rewrite bind_bind. unfold bind at 1. rewrite indexObjects_run.
  unfold bind at 1. rewrite indexObjects_run.
  rewrite IH. unfold indexEntries. cbn [fmap list_fmap concat].
  unfold entriesOf at 2. by rewrite !insertAll_app.
Qed.

(** C2, as amended: [BuildTypeNameMap] never fails; afterwards every
    dotted fully-qualified name of a message or enum of a wrapped file is
    a key of the index, and [ObjectNamed] returns for it the object of
    the last insertion under that name (a duplicate name silently
    replaces the earlier object); when the names are pairwise distinct
    [ObjectNamed] returns the very object that was inserted; and a name
    that is not in the index makes [ObjectNamed] exit. *)
Theorem type_index_after_BuildTypeNameMap g :
  ∃ g', BuildTypeNameMap g = Ok tt g' ∧
    let entries := indexEntries (allFiles g) in
    (∀ n ob, (n, ob) ∈ entries →
       ∃ before ob' after, entries = before ++ (n, ob') :: after ∧ (n ∉ after.*1) ∧
                           ObjectNamed n g' = Ok ob' g') ∧
    (NoDup entries.*1 → ∀ n ob, (n, ob) ∈ entries → ObjectNamed n g' = Ok ob g') ∧
    (∀ n, n ∉ entries.*1 → ObjectNamed n g' = Exit (Fail_ObjectNotFound n) g').
Proof.
  eexists. split; [apply BuildTypeNameMap_run|]. cbv zeta.
  split_and!.
  - intros n ob Hin.
    destruct (lookup_insertAll_last ∅ _ n (elem_of_fst _ _ _ Hin))
      as (before & ob' & after & Heq & Hafter & Hlk).
    exists before, ob', after. split_and!; [done..|].
    unfold ObjectNamed. rewrite bind_get. simpl. by rewrite Hlk.
  - intros Hnd n ob Hin. unfold ObjectNamed. rewrite bind_get. simpl.
    by rewrite (lookup_insertAll_NoDup ∅ _ n ob Hnd Hin).
  - intros n Hn. unfold ObjectNamed. rewrite bind_get. simpl.
    by rewrite lookup_insertAll_notin, lookup_empty.
Qed.

(** ** [SetPackageNames] *)

Lemma keeps_paramLoop R `{!PreOrder R} m :
  (∀ k v, keeps R (paramCase k v)) → keeps R (paramLoop m).
Proof.
  intros Hc. unfold paramLoop.
  apply (map_fold_weak_ind (λ (acc : M unit) (_ : gmap string string), keeps R acc)).
  - by apply keeps_ret.
  - intros k v m' r _ IH. apply keeps_bind; [done|done|]. intros _. apply Hc.
Qed.

Lemma keeps_paramCase {T} (f : Generator → T) k v :
  (∀ x g, f (set_ImportPrefix x g) = f g) →
  (∀ x g, f (set_PackageImportPath x g) = f g) →
  (∀ x g, f (set_g_pathType x g) = f g) →
  (∀ x g, f (set_ImportMap x g) = f g) →
  keeps (same f) (paramCase k v).
Proof.
  intros H1 H2 H3 H4. unfold paramCase.
  repeat case_decide; try (apply keeps_modify; intros g; unfold same; by auto);
    try (apply keeps_Fail; exact _).
  destruct k as [|c rest]; [apply keeps_ret; exact _|].
  destruct c as [[] [] [] [] [] [] [] []];
    first [ apply keeps_ret; exact _ | apply keeps_modify; intros g; unfold same; by auto ].
Qed.

Lemma mapM_genFileAt g l g1 :
  Forall (λ i, is_Some (allFiles g !! i)) l →
  mapM (genFileAt g) l g1 = Ok (omap (λ i, allFiles g !! i) l) g1.
Proof.
  induction 1 as [|i l [f Hf] _ IH]; [done|].
  cbn [mapM omap list_omap]. unfold bind at 1. unfold genFileAt at 1. rewrite Hf. simpl.
  unfold bind at 1. by rewrite IH.
Qed.

Lemma packageNameFor_ext g g' dpn f f' :
  PackageImportPath g = PackageImportPath g' → fd_proto f = fd_proto f' →
  importPath f = importPath f' → packageNameFor g dpn f = packageNameFor g' dpn f'.
Proof.
  intros Hg Hp Hi. unfold packageNameFor, defaultGoPackage. by rewrite Hg, Hp, Hi.
Qed.

Lemma namesSet_refl g0 dpn F0 : namesSet g0 dpn F0 F0 [].
Proof. intros i f0 Hi. exists f0. split_and!; try done. by intros ?%elem_of_nil. Qed.

(** The second loop of [SetPackageNames]. *)
Lemma setNames_run g0 dpn F0 l : ∀ g1 named,
  PackageImportPath g1 = PackageImportPath g0 →
  namesSet g0 dpn F0 (allFiles g1) named →
  Forall (λ i, is_Some (F0 !! i)) l →
  ∃ g2,
    forM_ l (λ i,
      g <- get ;;
      f <- genFileAt g i ;;
      modify (λ g, set_allFiles (alter (set_packageName (packageNameFor g dpn f)) i
                                       (allFiles g)) g)) g1 = Ok tt g2 ∧
    PackageImportPath g2 = PackageImportPath g0 ∧
    genFiles g2 = genFiles g1 ∧
    namesSet g0 dpn F0 (allFiles g2) (named ++ l).
Proof.
  induction l as [|i l IH]; intros g1 named HP HN Hl.
  - exists g1. by rewrite app_nil_r.
  - apply Forall_cons in Hl as [[f0 Hf0] Hl].
    destruct (HN i f0 Hf0) as (f & Hf & Hfp & Hfi & _).
    cbn [forM_]. unfold bind at 1. rewrite bind_get. unfold bind at 1.
    unfold genFileAt at 1. rewrite Hf. simpl.
    set (g1' := set_allFiles _ g1).
    destruct (IH g1' (named ++ [i])) as (g2 & Hrun & HP2 & HG2 & HN2); [done| |done|].
    { intros j fj Hj. destruct (HN j fj Hj) as (f' & Hf' & Hp' & Hi' & Hn').
      destruct (decide (i = j)) as [<-|Hne].
      - exists (set_packageName (packageNameFor g1 dpn f) f).
        assert (f' = f) as -> by congruence. assert (fj = f0) as -> by congruence.
        split_and!; try done.
        + simpl. by rewrite list_lookup_alter_eq, Hf.
        + intros _. simpl. by apply packageNameFor_ext.
      - exists f'. split_and!; try done.
        + simpl. by rewrite list_lookup_alter_ne.
        + intros [Hin|Hin%list_elem_of_singleton]%elem_of_app; [by apply Hn'|done]. }
    exists g2. split_and!; try done. by rewrite <- app_assoc in HN2.
Qed.

(** The third loop of [SetPackageNames]: it only reads the state, and
    exits at the first file that disagrees with the first file. *)
Lemma checkNames_exit first f0 l : ∀ g,
  allFiles g !! first = Some f0 →
  Forall (λ i, is_Some (allFiles g !! i)) l →
  (∃ i f, i ∈ l ∧ allFiles g !! i = Some f ∧
          (importPath f0 ≠ importPath f ∨ packageName f0 ≠ packageName f)) →
  ∃ e,
    forM_ l (λ i,
      g <- get ;;
      f0 <- genFileAt g first ;;
      f <- genFileAt g i ;;
      (if decide (importPath f0 ≠ importPath f)
       then Fail (Fail_InconsistentImportPaths (importPath f0) (importPath f))
       else ret tt) ;;;
      (if decide (packageName f0 ≠ packageName f)
       then Fail (Fail_InconsistentPackageNames (packageName f0) (packageName f))
       else ret tt)) g = Exit e g ∧
    inconsistency e.
Proof.
  intros g Hf0. induction l as [|i l IH]; intros Hl (j & fj & Hj & Hfj & Hbad).
  - by apply elem_of_nil in Hj.
  - apply Forall_cons in Hl as [[f Hf] Hl].
    cbn [forM_]. unfold bind at 1. rewrite bind_get. unfold bind at 1.
    unfold genFileAt at 1. rewrite Hf0. simpl.
    unfold bind at 1. unfold genFileAt at 1. rewrite Hf. simpl.
    destruct (decide (importPath f0 ≠ importPath f)) as [Hi|Hi].
    { eexists. split; [done|]. eexists _, _. split; [exact Hi|by left]. }
    unfold bind at 1. simpl.
    destruct (decide (packageName f0 ≠ packageName f)) as [Hp|Hp].
    { eexists. split; [done|]. eexists _, _. split; [exact Hp|by right]. }
    simpl. apply IH; [done|].
    apply elem_of_cons in Hj as [->|Hj].
    + assert (fj = f) as -> by congruence. by destruct Hbad.
    + by exists j, fj.
Qed.
Lemma bind_genFileAt {B} g0 i f (k : FileDescriptor → M B) g :
  allFiles g0 !! i = Some f → bind (genFileAt g0 i) k g = k f g.
Proof. intros Hf. unfold bind, genFileAt. by rewrite Hf. Qed.

Lemma bind_modify {B} f (k : unit → M B) g : bind (modify f) k g = k tt (f g).
Proof. done. Qed.

Lemma SetPackageNames_inconsistent g f1 f2 :
  genFilesValid g → f1 ∈ genFilesOf g → f2 ∈ genFilesOf g →
  importPath f1 ≠ importPath f2 ∨ computedPackageName g f1 ≠ computedPackageName g f2 →
  ∃ e g', SetPackageNames g = Exit e g' ∧ inconsistency e.
Proof.
  intros Hvalid Hf1 Hf2 Hdiff.
  unfold genFilesValid, computedPackageName, genFilesOf in *.
  apply list_elem_of_omap in Hf1 as (i1 & Hi1 & Hl1).
  apply list_elem_of_omap in Hf2 as (i2 & Hi2 & Hl2).
  set (dpn := defaultPackageNamesOf (omap (λ i, allFiles g !! i) (genFiles g))) in *.
  unfold SetPackageNames. rewrite bind_get.
  destruct (genFiles g) as [|first rest] eqn:Hgf; [by apply elem_of_nil in Hi1|].
  pose proof Hvalid as Hvalid'.
  apply Forall_cons in Hvalid' as [[f0 Hf0] Hrest].
  cbn [lookup list_lookup orPanic]. rewrite bind_ret.
  rewrite (bind_genFileAt _ _ _ _ _ Hf0), !bind_modify.
  set (g1 := set_outputImportPath _ (set_outputImportPath _ g)).
  unfold bind at 1. rewrite (mapM_genFileAt g _ g1 Hvalid). fold dpn.
  destruct (setNames_run g dpn (allFiles g) (first :: rest) g1 [])
    as (g2 & Hrun & HP2 & HG2 & HN2); [done|apply namesSet_refl|done|].
  unfold bind at 1. rewrite Hrun.
  assert (Hbad : ∃ ix fx, ix ∈ first :: rest ∧ allFiles g !! ix = Some fx ∧
            (importPath f0 ≠ importPath fx ∨
             packageNameFor g dpn f0 ≠ packageNameFor g dpn fx)).
  { destruct (decide (importPath f0 = importPath f1)) as [E1|N1]; [|by exists i1, f1; auto].
    destruct (decide (packageNameFor g dpn f0 = packageNameFor g dpn f1)) as [E2|N2];
      [|by exists i1, f1; auto].
    exists i2, f2. split_and!; [done|done|].
    destruct Hdiff as [Hd|Hd]; [left; by rewrite E1|right; by rewrite E2]. }
  destruct Hbad as (ix & fx & Hix & Hfx & Hbad).
  assert (ix ∈ rest) as Hixr.
  { apply elem_of_cons in Hix as [->|?]; [|done].
    assert (fx = f0) as -> by congruence. by destruct Hbad. }
  destruct (HN2 first f0 Hf0) as (f0' & Hf0' & _ & Hi0 & Hn0).
  destruct (HN2 ix fx Hfx) as (fx' & Hfx' & _ & Hix' & Hnx).
  destruct (checkNames_exit first f0' rest g2) as (e & Hexit & Hinc).
  - done.
  - eapply Forall_impl; [exact Hrest|]. intros j [fj Hj].
    destruct (HN2 j fj Hj) as (fj' & Hfj' & _). by exists fj'.
  - exists ix, fx'. split_and!; [done|done|].
    rewrite Hi0, Hix'. rewrite Hnx by (simpl; by apply elem_of_cons; right).
    specialize (Hn0 ltac:(simpl; apply elem_of_cons; auto)). rewrite Hn0. done.
  - exists e, g2. split; [|done].
    change (drop 1 (first :: rest)) with rest. unfold bind at 1. by rewrite Hexit.
Qed.

(** ** [WrapTypes] *)

Lemma mapM_Ok_inv {A B} (Rel : A → B → Prop) (f : A → M B) l g r g' :
  (∀ x g y g', f x g = Ok y g' → g' = g ∧ Rel x y) →
  mapM f l g = Ok r g' → g' = g ∧ Forall2 Rel l r.
Proof.
  intros Hf. revert r g'. induction l as [|x l IH]; intros r g' Hrun.
  - injection Hrun as <- <-. by split.
  - cbn [mapM] in Hrun. apply bind_Ok in Hrun as (y & g1 & Hy & Hrun).
    apply bind_Ok in Hrun as (ys & g2 & Hys & Hrun). injection Hrun as <- <-.
    apply Hf in Hy as [-> Hy]. apply IH in Hys as [-> Hys]. split; [done|by constructor].
Qed.

Lemma sameMessage_refl d : sameMessage d d.
Proof. by split_and!. Qed.

Lemma sameMessage_trans d1 d2 d3 : sameMessage d1 d2 → sameMessage d2 d3 → sameMessage d1 d3.
Proof. unfold sameMessage. intros (?&?&?&?) (?&?&?&?). split_and!; congruence. Qed.

Lemma buildNestedDescriptors_Ok descs g r g' :
  buildNestedDescriptors descs g = Ok r g' → g' = g ∧ Forall2 sameMessage descs r.
Proof.
  apply mapM_Ok_inv. intros d g1 d' g1'.
  intros Heq. cbv zeta in Heq.
  repeat case_match; unfold ret, Fail in Heq; try discriminate Heq;
    injection Heq as <- <-; split; try done; by split_and!.
Qed.

Lemma buildNestedEnums_Ok descs es g r g' :
  buildNestedEnums descs es g = Ok r g' → g' = g ∧ Forall2 sameMessage descs r.
Proof.
  apply mapM_Ok_inv. intros d g1 d' g1'.
  intros Heq. cbv zeta in Heq.
  repeat case_match; unfold ret, Fail in Heq; try discriminate Heq;
    injection Heq as <- <-; split; try done; by split_and!.
Qed.

Lemma Forall2_sameMessage_trans l1 l2 l3 :
  Forall2 sameMessage l1 l2 → Forall2 sameMessage l2 l3 → Forall2 sameMessage l1 l3.
Proof.
  intros H12. revert l3. induction H12 as [|a b l1 l2 Hab _ IH]; intros l3 H23.
  - by inversion H23.
  - inversion H23 as [|? c ? l3' Hbc H23']; subst. constructor; [|by apply IH].
    by eapply sameMessage_trans.
Qed.

(** One proto wrapped: the file is appended to [allFiles] and entered in
    [allFilesByName] under its name. *)
Lemma wrapFile_Ok genFileNames f g g' :
  wrapFile genFileNames f g = Ok tt g' →
  ∃ fd, wrappedAt g genFileNames (length (allFiles g)) f fd ∧ imp fd = [] ∧
        allFiles g' = allFiles g ++ [fd] ∧
        allFilesByName g' = <[GetString (Name f) := length (allFiles g)]> (allFilesByName g) ∧
        ImportMap g' = ImportMap g ∧ PackageImportPath g' = PackageImportPath g ∧
        Request g' = Request g.
Proof.
  unfold wrapFile. rewrite bind_get. intros Hrun.
  apply bind_Ok in Hrun as (descs & g1 & Hd & Hrun).
  apply buildNestedDescriptors_Ok in Hd as [-> Hd].
  apply bind_Ok in Hrun as (descs' & g1 & Hd' & Hrun).
  apply buildNestedEnums_Ok in Hd' as [-> Hd'].
  injection Hrun as <-. eexists. split_and!; try reflexivity.
  2: reflexivity.
  split_and!; [done|done|]. simpl. by eapply Forall2_sameMessage_trans.
Qed.

Lemma fileImportPath_ext g g' genFileNames f :
  ImportMap g = ImportMap g' → PackageImportPath g = PackageImportPath g' →
  fileImportPath g genFileNames f = fileImportPath g' genFileNames f.
Proof. intros HI HP. unfold fileImportPath. by rewrite HI, HP. Qed.

Lemma wrapInv_start g genFileNames :
  wrapInv g genFileNames [] (set_allFilesByName ∅ (set_allFiles [] g)).
Proof.
  split; try done; try (intros k f; by rewrite lookup_nil);
    intros n i; simpl; by rewrite lookup_empty.
Qed.

(** The loop of [WrapTypes] over the protos of the request. *)
Lemma wrapFiles_Ok g0 genFileNames rest : ∀ wrapped g g',
  wrapInv g0 genFileNames wrapped g →
  forM_ rest (wrapFile genFileNames) g = Ok tt g' →
  wrapInv g0 genFileNames (wrapped ++ rest) g'.
Proof.
  induction rest as [|f rest IH]; intros wrapped g g' Hinv Hrun.
  - injection Hrun as <-. by rewrite app_nil_r.
  - cbn [forM_] in Hrun. apply bind_Ok in Hrun as ([] & g1 & Hf & Hrun).
    apply wrapFile_Ok in Hf as (fd & (Hp & Hi & Hd) & _ & HF & HN & HIM & HPI & HR).
    destruct Hinv as [I1 I2 I3 I4 I5 I6].
    change (f :: rest) with ([f] ++ rest). rewrite app_assoc. apply (IH _ g1); [|done].
    split; try congruence.
    + rewrite HF, !length_app. simpl. lia.
    + intros k f' Hk. rewrite HF.
      destruct (decide (k < length wrapped)) as [Hlt|Hge].
      * rewrite lookup_app_l in Hk by done. rewrite lookup_app_l by lia. by apply I5.
      * rewrite lookup_app_r in Hk by lia. rewrite lookup_app_r by lia.
        rewrite I4. destruct (k - length wrapped) as [|j] eqn:Hj; [|by destruct j].
        injection Hk as <-. assert (k = length wrapped) as -> by lia.
        exists fd. split; [done|]. rewrite I4 in Hd.
        rewrite (fileImportPath_ext g g0) in Hi, Hd by done. by split_and!.
    + intros n i. rewrite HN, HF, length_app. simpl.
      destruct (decide (GetString (Name f) = n)) as [<-|Hne].
      * rewrite lookup_insert_eq. intros [= <-]. lia.
      * rewrite lookup_insert_ne by done. intros Hn%I6. lia.
Qed.

Lemma coreEq_refl a : coreEq a a.
Proof. by split_and!. Qed.

Lemma coreEq_trans a b c : coreEq a b → coreEq b c → coreEq a c.
Proof. unfold coreEq. intros (?&?&?&?&?) (?&?&?&?&?). split_and!; congruence. Qed.

Lemma coreEq_sym a b : coreEq a b → coreEq b a.
Proof. unfold coreEq. intros (?&?&?&?&?). by split_and!. Qed.

Lemma importedFrom_coreEq c df df' : coreEq df df' → importedFrom c df = importedFrom c df'.
Proof. intros (_ & Hd & He & Hx & _). unfold importedFrom. by rewrite Hd, He, Hx. Qed.

Lemma commonOf_coreEq j fd fd' : coreEq fd fd' → commonOf j fd = commonOf j fd'.
Proof. intros (Hp & _ & _ & _ & Hi). unfold commonOf. by rewrite Hp, Hi. Qed.

Lemma Forall2_coreEq_refl F : Forall2 coreEq F F.
Proof. induction F; constructor; [apply coreEq_refl | done]. Qed.

Lemma Forall2_coreEq_alter F i (change : FileDescriptor → FileDescriptor) :
  (∀ fd, coreEq fd (change fd)) → Forall2 coreEq F (alter change i F).
Proof.
  intros Hc. revert i. induction F as [|fd F IH]; intros i; [constructor|].
  destruct i as [|i]; simpl.
  - constructor; [apply Hc | apply Forall2_coreEq_refl].
  - constructor; [apply coreEq_refl | apply IH].
Qed.

Lemma Forall2_coreEq_trans F1 F2 F3 :
  Forall2 coreEq F1 F2 → Forall2 coreEq F2 F3 → Forall2 coreEq F1 F3.
Proof.
  intros H12. revert F3. induction H12 as [|a b l1 l2 Hab _ IH]; intros l3 H23.
  - by inversion H23.
  - inversion H23 as [|? c ? l3' Hbc H23']; subst. constructor; [|by apply IH].
    by eapply coreEq_trans.
Qed.

(** The imported descriptors stay right when the files change in their
    imports or package names only. *)
Lemma importsOK_coreEq F F' N j fd fd' :
  Forall2 coreEq F F' → coreEq fd fd' → imp fd' = imp fd →
  importsOK F N j fd → importsOK F' N j fd'.
Proof.
  intros HF Hfd Himp (dfs & Hdfs & Hsl). unfold importsOK.
  destruct Hfd as (Hp & Hrest). rewrite <- Hp.
  assert (Hc : commonOf j fd' = commonOf j fd).
  { symmetry. apply commonOf_coreEq. by split. }
  rewrite Hc, Himp, Hsl. clear Hsl Himp.
  induction Hdfs as [|index df l dfs (Hnn & name & i & Hdep & HN & HFi) _ (dfs' & IH1 & IH2)].
  - exists []. by split; [constructor|].
  - destruct (Forall2_lookup_l _ _ _ _ _ HF HFi) as (df' & HF'i & Hdf).
    exists (df' :: dfs'). split.
    + constructor; [|done]. split; [done|]. exists name, i. split_and!; try done.
      by rewrite <- Hp.
    + cbn [fmap list_fmap concat]. by rewrite IH2, (importedFrom_coreEq _ df df').
Qed.

Lemma wrapImported_Ok i file g sl g' :
  wrapImported i file g = Ok sl g' →
  g' = g ∧ ∃ dfs,
    Forall2 (publicDependencyFile (allFiles g) (allFilesByName g) file)
            (PublicDependency (fd_proto file)) dfs ∧
    sl = concat (importedFrom (commonOf i file) <$> dfs).
Proof.
  unfold wrapImported. rewrite bind_get.
  assert (Hgen : ∀ l sl0 sl g',
    foldM (λ sl (index : Z),
             name <- orPanic "index out of range"
                       (if decide (0 ≤ index)%Z
                        then Dependency (fd_proto file) !! Z.to_nat index else None) ;;
             df <- orPanic "nil pointer dereference" (fileByName g name) ;;
             ret (sl ++ importedFrom (commonOf i file) df)) sl0 l g = Ok sl g' →
    g' = g ∧ ∃ dfs,
      Forall2 (publicDependencyFile (allFiles g) (allFilesByName g) file) l dfs ∧
      sl = sl0 ++ concat (importedFrom (commonOf i file) <$> dfs)).
  { induction l as [|index l IH]; intros sl0 sl1 g1 Hrun.
    - injection Hrun as <- <-. split; [done|]. exists []. split; [constructor|].
      by rewrite app_nil_r.
    - cbn [foldM] in Hrun. apply bind_Ok in Hrun as (sl2 & g2 & Hstep & Hrun).
      apply bind_Ok in Hstep as (name & g3 & Hname & Hstep).
      apply bind_Ok in Hstep as (df & g4 & Hdf & Hstep).
      injection Hstep as <- <-.
      destruct (decide (0 ≤ index)%Z) as [Hnn|]; [|done].
      destruct (Dependency (fd_proto file) !! Z.to_nat index) as [name'|] eqn:Hdep; [|done].
      injection Hname as <- <-.
      unfold fileByName in Hdf.
      destruct (allFilesByName g !! name') as [k|] eqn:HN; [|done].
      destruct (allFiles g !! k) as [df'|] eqn:HF; [|done].
      injection Hdf as <- <-.
      apply IH in Hrun as (-> & dfs & Hdfs & ->). split; [done|].
      exists (df' :: dfs). split.
      + constructor; [|done]. split; [done|]. by exists name', k.
      + cbn [fmap list_fmap concat]. by rewrite <- app_assoc. }
  intros Hrun. apply Hgen in Hrun as (-> & dfs & Hdfs & ->). split; [done|]. by exists dfs.
Qed.
(** The loop of [WrapTypes] that fills in the imported descriptors. *)
Lemma wrapImports_Ok F N : ∀ l i g g',
  drop i F = l → Forall2 coreEq F (allFiles g) → allFilesByName g = N →
  (∀ j fd, j < i → allFiles g !! j = Some fd → importsOK (allFiles g) N j fd) →
  forI_ i l (λ i fd,
    sl <- wrapImported i fd ;;
    modify (λ g, set_allFiles (alter (set_imp sl) i (allFiles g)) g)) g = Ok tt g' →
  Forall2 coreEq F (allFiles g') ∧ allFilesByName g' = N ∧
  (∀ j fd, allFiles g' !! j = Some fd → importsOK (allFiles g') N j fd) ∧
  ImportMap g' = ImportMap g ∧ PackageImportPath g' = PackageImportPath g ∧
  Request g' = Request g.
Proof.
  induction l as [|fd l IH]; intros i g g' Hdrop HF HN Hdone Hrun.
  - injection Hrun as <-. split_and!; try done.
    intros j fd Hj. apply Hdone; [|done].
    apply lookup_lt_Some in Hj. rewrite <- (Forall2_length _ _ _ HF) in Hj.
    destruct (decide (j < i)); [done|].
    assert (Hlen : length (drop i F) = 0) by by rewrite Hdrop.
    rewrite length_drop in Hlen. lia.
  - cbn [forI_] in Hrun. apply bind_Ok in Hrun as ([] & g1 & Hstep & Hrun).
    apply bind_Ok in Hstep as (sl & g2 & Hsl & Hstep).
    apply wrapImported_Ok in Hsl as (-> & dfs & Hdfs & ->).
    injection Hstep as <-.
    assert (HFi : F !! i = Some fd).
    { rewrite <- (Nat.add_0_r i), <- lookup_drop, Hdrop. done. }
    destruct (Forall2_lookup_l _ _ _ _ _ HF HFi) as (fd1 & Hfd1 & Hcore).
    set (sl := concat (importedFrom (commonOf i fd) <$> dfs)) in *.
    assert (Halter : Forall2 coreEq (allFiles g) (alter (set_imp sl) i (allFiles g))).
    { apply Forall2_coreEq_alter. intros x. by split_and!. }
    apply IH in Hrun.
    + destruct Hrun as (R1 & R2 & R3 & R4 & R5 & R6). split_and!; done.
    + by rewrite (drop_S _ _ _ HFi) in Hdrop; injection Hdrop.
    + simpl. by eapply Forall2_coreEq_trans.
    + done.
    + simpl. intros j fdj Hj Hlk.
      destruct (decide (j = i)) as [->|Hne].
      * rewrite list_lookup_alter_eq, Hfd1 in Hlk. injection Hlk as <-.
        apply (importsOK_coreEq (allFiles g) _ N i (set_imp sl fd));
          [done| |done|].
        { split_and!; simpl; apply Hcore. }
        exists dfs. split; [|done]. rewrite HN in Hdfs. exact Hdfs.
      * rewrite list_lookup_alter_ne in Hlk by done.
        apply (importsOK_coreEq (allFiles g) _ N j fdj); [done|apply coreEq_refl|done|].
        apply Hdone; [lia|done].
Qed.

Lemma wrapInv_coreEq g0 genFileNames files g g' :
  wrapInv g0 genFileNames files g →
  Forall2 coreEq (allFiles g) (allFiles g') →
  allFilesByName g' = allFilesByName g →
  ImportMap g' = ImportMap g → PackageImportPath g' = PackageImportPath g →
  Request g' = Request g →
  wrapInv g0 genFileNames files g'.
Proof.
  intros [I1 I2 I3 I4 I5 I6] HF HN HIM HPI HR.
  pose proof (Forall2_length _ _ _ HF) as Hlen.
  split; try congruence.
  - intros k f Hk. destruct (I5 k f Hk) as (fd & Hfd & Hp & Hi & Hd).
    destruct (Forall2_lookup_l _ _ _ _ _ HF Hfd) as (fd' & Hfd' & Hc1 & Hc2 & _ & _ & Hc5).
    exists fd'. split; [done|]. split_and!; congruence.
  - intros n i. rewrite HN, <- Hlen. apply I6.
Qed.

(** The last loop of [WrapTypes]: the files to generate, by name. *)
Lemma genFilesLoop_Ok names : ∀ g g',
  forM_ names (λ fileName,
    g <- get ;;
    match allFilesByName g !! fileName with
    | None => Fail (Fail_FileNotFound fileName)
    | Some i => modify (λ g, set_genFiles (genFiles g ++ [i]) g)
    end) g = Ok tt g' →
  ∃ idxs, genFiles g' = genFiles g ++ idxs ∧
          Forall2 (λ n i, allFilesByName g !! n = Some i) names idxs ∧
          allFiles g' = allFiles g ∧ allFilesByName g' = allFilesByName g ∧
          ImportMap g' = ImportMap g ∧ PackageImportPath g' = PackageImportPath g ∧
          Request g' = Request g.
Proof.
  induction names as [|n names IH]; intros g g' Hrun.
  - injection Hrun as <-. exists []. rewrite app_nil_r. split_and!; try done; constructor.
  - cbn [forM_] in Hrun. apply bind_Ok in Hrun as ([] & g1 & Hstep & Hrun).
    rewrite bind_get in Hstep.
    destruct (allFilesByName g !! n) as [i|] eqn:Hn; [|done].
    injection Hstep as <-.
    apply IH in Hrun as (idxs & H1 & H2 & H3 & H4 & H5 & H6 & H7). simpl in *.
    exists (i :: idxs). rewrite <- app_assoc in H1. split_and!; try done.
    by constructor.
Qed.

(** [WrapTypes], when it returns: every proto of the request is wrapped,
    in order; the imported descriptors are those of the public
    dependencies; and the files to generate are the named ones. *)
Lemma WrapTypes_Ok g g' :
  WrapTypes g = Ok tt g' →
  wrapInv g (genFileNamesOf (FileToGenerate (Request g))) (ProtoFile (Request g)) g' ∧
  (∀ j fd, allFiles g' !! j = Some fd → importsOK (allFiles g') (allFilesByName g') j fd) ∧
  Forall2 (λ n i, allFilesByName g' !! n = Some i) (FileToGenerate (Request g)) (genFiles g') ∧
  genFilesValid g'.
Proof.
  unfold WrapTypes. rewrite !bind_modify, bind_get. intros Hrun.
  set (g0 := set_allFilesByName ∅ (set_allFiles [] g)) in *.
  change (Request g0) with (Request g) in Hrun.
  fold (genFileNamesOf (FileToGenerate (Request g))) in Hrun.
  set (gfn := genFileNamesOf (FileToGenerate (Request g))) in *.
  apply bind_Ok in Hrun as ([] & g1 & Hwrap & Hrun).
  pose proof (wrapFiles_Ok g gfn _ [] g0 g1 (wrapInv_start g gfn) Hwrap) as Hinv1.
  rewrite app_nil_l in Hinv1.
  rewrite bind_get in Hrun.
  apply bind_Ok in Hrun as ([] & g2 & Himp & Hrun).
  apply (wrapImports_Ok (allFiles g1) (allFilesByName g1)) in Himp
    as (HF2 & HN2 & Hok2 & HIM2 & HPI2 & HR2);
    [|done|apply Forall2_coreEq_refl|done|intros j fd Hj; lia].
  pose proof (wrapInv_coreEq _ _ _ _ _ Hinv1 HF2 HN2 HIM2 HPI2 HR2) as Hinv2.
  rewrite bind_modify in Hrun.
  apply genFilesLoop_Ok in Hrun as (idxs & HG & Hidx & HF3 & HN3 & HIM3 & HPI3 & HR3).
  simpl in HG, Hidx, HF3, HN3, HIM3, HPI3, HR3.
  assert (Hinv3 : wrapInv g gfn (ProtoFile (Request g)) g').
  { eapply wrapInv_coreEq; [exact Hinv2|..]; try done. rewrite HF3. apply Forall2_coreEq_refl. }
  split_and!.
  - done.
  - intros j fd. rewrite HF3, HN3, HN2. rewrite <- HN2 at 1. rewrite HN2. apply Hok2.
  - rewrite HG, HN3. assert (HRg : Request g1 = Request g) by apply Hinv1.
    rewrite HRg in Hidx. exact Hidx.
  - unfold genFilesValid. rewrite HG, HF3.
    apply Forall_forall. intros i Hi.
    apply list_elem_of_lookup in Hi as (k & Hk).
    destruct (Forall2_lookup_r _ _ _ _ _ Hidx Hk) as (n & _ & Hn).
    apply lookup_lt_is_Some. destruct Hinv2 as [_ _ _ _ _ Hby]. by apply (Hby n).
Qed.

(** ** Frames of the stages before generation *)

Ltac keeps_stage :=
  unfold wrapStage, CommandLineParameters, WrapTypes, wrapFile, wrapImported,
    buildNestedDescriptors, buildNestedEnums, SetPackageNames, genFileAt;
  repeat first
    [ assumption
    | apply keeps_paramLoop; [exact _ | intros ? ?; by apply keeps_paramCase]
    | keeps_step ].

Lemma wrapStage_keeps_Response : keeps (same Response) wrapStage.
Proof. keeps_stage. Qed.

Lemma wrapStage_keeps_fs : keeps (same fs) wrapStage.
Proof. keeps_stage. Qed.

Lemma wrapStage_keeps_Buffer : keeps (same Buffer) wrapStage.
Proof. keeps_stage. Qed.

Lemma SetPackageNames_keeps_Response : keeps (same Response) SetPackageNames.
Proof. keeps_stage. Qed.

Lemma SetPackageNames_keeps_fs : keeps (same fs) SetPackageNames.
Proof. keeps_stage. Qed.

Lemma SetPackageNames_keeps_Buffer : keeps (same Buffer) SetPackageNames.
Proof. keeps_stage. Qed.

Lemma wrapStage_Ok g g' :
  wrapStage g = Ok tt g' →
  ∃ g1, CommandLineParameters (GetString (Parameter_ (Request g))) g = Ok tt g1 ∧
        WrapTypes g1 = Ok tt g'.
Proof.
  unfold wrapStage. rewrite bind_get. intros Hrun.
  apply bind_Ok in Hrun as ([] & g0 & Hcheck & Hrun).
  destruct (decide (length (FileToGenerate (Request g)) = 0)); [done|].
  injection Hcheck as <-.
  apply bind_Ok in Hrun as ([] & g1 & Hclp & Hrun). by exists g1.
Qed.

(** C7: when two of the files selected for generation differ in their
    computed import path or in their computed package name, the run
    exits with one of the two inconsistency messages while the package
    names are assigned: nothing has been generated, the response is
    empty and no file has been written. *)
Theorem inconsistent_packages_abort req disk environ g2 f1 f2 :
  wrapStage (New req disk environ) = Ok tt g2 →
  f1 ∈ genFilesOf g2 → f2 ∈ genFilesOf g2 →
  importPath f1 ≠ importPath f2 ∨ computedPackageName g2 f1 ≠ computedPackageName g2 f2 →
  ∃ e g', resolve (New req disk environ) = Exit e g' ∧ inconsistency e ∧
          Response g' = [] ∧ Buffer g' = [] ∧ fs g' = disk.
Proof.
  intros Hwrap Hf1 Hf2 Hdiff.
  destruct (wrapStage_Ok _ _ Hwrap) as (g1 & _ & HW).
  destruct (WrapTypes_Ok _ _ HW) as (_ & _ & _ & Hvalid).
  destruct (SetPackageNames_inconsistent g2 f1 f2 Hvalid Hf1 Hf2 Hdiff) as (e & g' & Hexit & Hinc).
  exists e, g'. split_and!.
  - unfold resolve. unfold bind at 1. rewrite Hwrap. unfold bind at 1. by rewrite Hexit.
  - done.
  - rewrite (keeps_Exit _ _ _ _ _ SetPackageNames_keeps_Response Hexit).
    by rewrite (keeps_Ok _ _ _ _ _ wrapStage_keeps_Response Hwrap).
  - rewrite (keeps_Exit _ _ _ _ _ SetPackageNames_keeps_Buffer Hexit).
    by rewrite (keeps_Ok _ _ _ _ _ wrapStage_keeps_Buffer Hwrap).
  - rewrite (keeps_Exit _ _ _ _ _ SetPackageNames_keeps_fs Hexit).
    by rewrite (keeps_Ok _ _ _ _ _ wrapStage_keeps_fs Hwrap).
Qed.

(** ** The import path of a wrapped file *)



(** ** Every declared message is wrapped *)

(** Induction over a message and the messages nested in it. *)
Fixpoint DescriptorProto_nested_ind (P : DescriptorProto → Prop)
    (step : ∀ dp, Forall P (dp_NestedType dp) → P dp) (dp : DescriptorProto) {struct dp}
    : P dp :=
  step dp
    (match dp as d return Forall P (dp_NestedType d) with
     | Build_DescriptorProto _ _ ns _ _ _ =>
         (fix go (l : list DescriptorProto) : Forall P l :=
            match l return Forall P l with
            | [] => List.Forall_nil P
            | x :: r => @List.Forall_cons _ P x r (DescriptorProto_nested_ind P step x) (go r)
            end) ns
     end).

Lemma wrapThisDescriptor_eq sl dp parent file index :
  wrapThisDescriptor sl dp parent file index
  = wrapNested (newDescriptor dp parent file index (length sl)) file
               (sl ++ [newDescriptor dp parent file index (length sl)]) 0 (dp_NestedType dp).
Proof.
  destruct dp as [n fl ns es xs me]. cbn [wrapThisDescriptor dp_NestedType].
  generalize (newDescriptor (Build_DescriptorProto n fl ns es xs me) parent file index
                (length sl)) as d0.
  intros d0. generalize (sl ++ [d0]) as sl'.
  generalize 0 as i. induction ns as [|x ns IH]; intros i sl'; [done|].
  cbn [wrapNested]. apply IH.
Qed.

Lemma wrapsAt_deeper parent parent' depth m d :
  wrapsAt (Some parent') depth m d → wrapsAt parent (S depth) m d.
Proof.
  intros (Hp & H0 & Hpos). split_and!; [done|done|]. intros _.
  destruct depth as [|depth]; [rewrite H0 by done; by eexists | apply Hpos; lia].
Qed.

(** The nested loop keeps what was wrapped and wraps every message
    declared within the listed messages. *)
Lemma wrapNested_covers me file l :
  Forall (λ dp, ∀ sl parent index,
            (∀ d, d ∈ sl → d ∈ wrapThisDescriptor sl dp parent file index) ∧
            (∀ depth m, messageWithin dp depth m →
               ∃ d, d ∈ wrapThisDescriptor sl dp parent file index ∧ wrapsAt parent depth m d)) l →
  ∀ sl i,
    (∀ d, d ∈ sl → d ∈ wrapNested me file sl i l) ∧
    (∀ n depth m, n ∈ l → messageWithin n depth m →
       ∃ d, d ∈ wrapNested me file sl i l ∧ wrapsAt (Some me) depth m d).
Proof.
  induction 1 as [|x l Hx _ IH]; intros sl i.
  - split; [done|]. intros n depth m Hn. by apply elem_of_nil in Hn.
  - cbn [wrapNested].
    destruct (Hx sl (Some me) i) as [Hkeep Hcov].
    destruct (IH (wrapThisDescriptor sl x (Some me) file i) (S i)) as [Hkeep' Hcov'].
    split.
    + intros d Hd. by apply Hkeep', Hkeep.
    + intros n depth m Hn Hm. apply elem_of_cons in Hn as [->|Hn].
      * destruct (Hcov depth m Hm) as (d & Hd & Hw). exists d. split; [by apply Hkeep'|done].
      * by apply (Hcov' n).
Qed.

Lemma wrapThisDescriptor_covers file dp : ∀ sl parent index,
  (∀ d, d ∈ sl → d ∈ wrapThisDescriptor sl dp parent file index) ∧
  (∀ depth m, messageWithin dp depth m →
     ∃ d, d ∈ wrapThisDescriptor sl dp parent file index ∧ wrapsAt parent depth m d).
Proof.
  induction dp as [dp IH] using DescriptorProto_nested_ind. intros sl parent index.
  rewrite wrapThisDescriptor_eq.
  set (me := newDescriptor dp parent file index (length sl)).
  destruct (wrapNested_covers me file _ IH (sl ++ [me]) 0) as [Hkeep Hcov].
  split.
  - intros d Hd. apply Hkeep, elem_of_app. by left.
  - intros depth m Hm. inversion Hm as [|? n depth' ? Hn Hm']; subst.
    + exists me. split; [apply Hkeep, elem_of_app; right; by left|].
      split_and!; [done|done|lia].
    + destruct (Hcov n depth' m Hn Hm') as (d & Hd & Hw). exists d. split; [done|].
      by eapply wrapsAt_deeper.
Qed.

Lemma wrapDescriptors_loop_covers file l : ∀ sl i,
  (∀ d, d ∈ sl → d ∈ wrapDescriptors_loop sl i l file) ∧
  (∀ top depth m, top ∈ l → messageWithin top depth m →
     ∃ d, d ∈ wrapDescriptors_loop sl i l file ∧ wrapsAt None depth m d).
Proof.
  induction l as [|x l IH]; intros sl i.
  - split; [done|]. intros top depth m Hn. by apply elem_of_nil in Hn.
  - cbn [wrapDescriptors_loop].
    destruct (wrapThisDescriptor_covers file x sl None i) as [Hkeep Hcov].
    destruct (IH (wrapThisDescriptor sl x None file i) (S i)) as [Hkeep' Hcov'].
    split.
    + intros d Hd. by apply Hkeep', Hkeep.
    + intros top depth m Hn Hm. apply elem_of_cons in Hn as [->|Hn].
      * destruct (Hcov depth m Hm) as (d & Hd & Hw). exists d. split; [by apply Hkeep'|done].
      * by apply (Hcov' top).
Qed.

(** Every message declared in a file, at any depth, is among the
    descriptors that [wrapDescriptors] returns. *)
Lemma wrapDescriptors_covers file depth m :
  declaredMessage (c_proto file) depth m →
  ∃ d, d ∈ wrapDescriptors file ∧ wrapsAt None depth m d.
Proof.
  intros (top & Htop & Hm). unfold wrapDescriptors.
  by apply (proj2 (wrapDescriptors_loop_covers file _ [] 0) top).
Qed.

(** ** Public imports *)

Lemma elem_of_concat {A} (x : A) (ls : list (list A)) :
  x ∈ concat ls ↔ ∃ l, l ∈ ls ∧ x ∈ l.
Proof.
  induction ls as [|l ls IH]; simpl.
  - split; [by intros ?%elem_of_nil | by intros (l & ?%elem_of_nil & _)].
  - rewrite elem_of_app, IH. split.
    + intros [Hx|(l' & Hl' & Hx)]; [exists l; split; [by left|done]|].
      exists l'. split; [by right|done].
    + intros (l' & [->|Hl']%elem_of_cons & Hx); [by left|]. right. by exists l'.
Qed.

Lemma elem_of_importedFrom c df id :
  id ∈ importedFrom c df ↔
  i_common id = c ∧
  ((∃ d, o id = ObjDescriptor d ∧ d ∈ desc df ∧ MapEntry d = false) ∨
   (∃ e, o id = ObjEnum e ∧ e ∈ enum df) ∨
   (∃ x, o id = ObjExtension x ∧ x ∈ ext df)).
Proof.
  unfold importedFrom. rewrite !elem_of_app, !list_elem_of_fmap. split.
  - intros [(d & -> & Hd)|[(e & -> & He)|(x & -> & Hx)]]; (split; [done|]).
    + apply list_elem_of_filter in Hd as [Hm Hd]. left. by exists d.
    + right. left. by exists e.
    + right. right. by exists x.
  - destruct id as [c' ob]. simpl.
    intros (-> & [(d & -> & Hd & Hm)|[(e & -> & He)|(x & -> & Hx)]]).
    + left. exists d. split; [done|]. by apply list_elem_of_filter.
    + right. left. by exists e.
    + right. right. by exists x.
Qed.

(** C4, as amended: the imported descriptors of a wrapped file are, for
    each of its public dependencies in turn, every message of the
    dependency that is not a map entry -- the nested messages, at any
    depth, as well as the top-level ones --, every enum, and every
    top-level extension; each refers to the object of the dependency
    itself. *)
Theorem public_imports_reexport g g' k fd :
  WrapTypes g = Ok tt g' → allFiles g' !! k = Some fd →
  ∃ dfs,
    Forall2 (publicDependencyFile (allFiles g') (allFilesByName g') fd)
            (PublicDependency (fd_proto fd)) dfs ∧
    imp fd = concat (importedFrom (commonOf k fd) <$> dfs) ∧
    (∀ id, id ∈ imp fd ↔
       i_common id = commonOf k fd ∧
       ∃ df, df ∈ dfs ∧
         ((∃ d, o id = ObjDescriptor d ∧ d ∈ desc df ∧ MapEntry d = false) ∨
          (∃ e, o id = ObjEnum e ∧ e ∈ enum df) ∨
          (∃ x, o id = ObjExtension x ∧ x ∈ ext df))) ∧
    (∀ df depth m,
       df ∈ dfs → declaredMessage (fd_proto df) depth m → dp_MapEntry m = false →
       ∃ d, d ∈ desc df ∧ wrapsAt None depth m d ∧
            {| i_common := commonOf k fd; o := ObjDescriptor d |} ∈ imp fd).
Proof.
  intros HW Hfd.
  destruct (WrapTypes_Ok _ _ HW) as (Hinv & Himps & _ & _).
  destruct (Himps k fd Hfd) as (dfs & Hdfs & Himp).
  assert (Hmem : ∀ id, id ∈ imp fd ↔
       i_common id = commonOf k fd ∧
       ∃ df, df ∈ dfs ∧
         ((∃ d, o id = ObjDescriptor d ∧ d ∈ desc df ∧ MapEntry d = false) ∨
          (∃ e, o id = ObjEnum e ∧ e ∈ enum df) ∨
          (∃ x, o id = ObjExtension x ∧ x ∈ ext df))).
  { intros id. rewrite Himp, elem_of_concat. split.
    - intros (l & (df & -> & Hdf)%list_elem_of_fmap & Hid).
      apply elem_of_importedFrom in Hid as [Hc Hcases]. split; [done|]. by exists df.
    - intros (Hc & df & Hdf & Hcases). exists (importedFrom (commonOf k fd) df). split.
      + apply list_elem_of_fmap. by exists df.
      + by apply elem_of_importedFrom. }
  exists dfs. split_and!; [done|done|done|].
  intros df depth m Hdf Hdecl Hme.
  apply list_elem_of_lookup in Hdf as (j & Hj).
  destruct (Forall2_lookup_r _ _ _ _ _ Hdfs Hj) as (index & _ & _ & name & i & _ & _ & Hi).
  destruct Hinv as [_ _ _ Hlen Hfiles _].
  destruct (lookup_lt_is_Some_2 (ProtoFile (Request g)) i) as [f Hf].
  { rewrite <- Hlen. by eapply lookup_lt_Some. }
  destruct (Hfiles i f Hf) as (df' & Hdf' & Hp & _ & Hdesc).
  assert (df' = df) as -> by congruence.
  set (c := {| c_file := i; c_proto := f; c_importPath := _ |}) in Hdesc.
  destruct (wrapDescriptors_covers c depth m) as (d0 & Hd0 & Hm0 & Hpar0 & Hpos0).
  { simpl. by rewrite <- Hp. }
  apply list_elem_of_lookup in Hd0 as (a & Ha).
  destruct (Forall2_lookup_l _ _ _ _ _ Hdesc Ha) as (d & Hd & _ & Hdp & Hdpar & _).
  exists d. split_and!.
  - by eapply list_elem_of_lookup_2.
  - split_and!; [congruence| |].
    + intros Hz. rewrite Hdpar. by apply Hpar0.
    + intros Hz. rewrite Hdpar. by apply Hpos0.
  - apply Hmem. simpl. split; [done|]. exists df. split; [by eapply list_elem_of_lookup_2|].
    left. exists d. split_and!; [done|by eapply list_elem_of_lookup_2|].
    unfold MapEntry. congruence.
Qed.

(** ** The API pass: frames *)

Ltac keeps_api :=
  unfold serviceRoutes, generateClientSignature, generateClientMethod, inputOf, routeBlock,
    bindBlock, callBlock, makeComments, currentFile, typeName, RecordTypeUse, TypeName,
    DefaultPackageName, AddImport, GoPackageName_, ObjectNamed;
  repeat first [ assumption | apply keeps_P; done | keeps_step ].

Lemma serviceRoutes_keeps_fs file service index :
  keeps (same fs) (serviceRoutes file service index).
Proof. keeps_api. Qed.

Lemma serviceRoutes_keeps_Param file service index :
  keeps (same Param) (serviceRoutes file service index).
Proof. keeps_api. Qed.

Lemma serviceRoutes_keeps_pathType file service index :
  keeps (same g_pathType) (serviceRoutes file service index).
Proof. keeps_api. Qed.

(** ** The handler manifest *)

Lemma generateHandler_run k v g :
  generateHandler k v g =
  match fs g !! manifestPath g with
  | None => Exit Fail_HandlerFileNotFound g
  | Some bts =>
      match json_Unmarshal bts with
      | None => Exit Fail_HandlerContentError g
      | Some m => Ok tt (set_fs (<[manifestPath g := json_Marshal (<[k := v]> m)]> (fs g)) g)
      end
  end.
Proof.
  unfold generateHandler, manifestPath. rewrite bind_get.
  destruct (fs g !! _); [|done]. by destruct (json_Unmarshal _).
Qed.

(** C3, as amended: [generateService] reads the manifest
    [<path>/handler.json], sets the entry of the service and writes the
    file back; when the file is absent the run exits -- with the
    file-not-found message once the routes are printed -- and nothing is
    created. (The driver script writes an empty manifest before it runs
    the plugin.) *)
Theorem manifest_is_required_and_updated file service index g :
  (fs g !! manifestPath g = None →
     ∃ e g', generateService file service index g = Exit e g' ∧ fs g' = fs g ∧
             (∀ hb g1, serviceRoutes file service index g = Ok hb g1 →
                       is_Some (Name (fd_proto file)) → e = Fail_HandlerFileNotFound)) ∧
  (∀ hb g', generateService file service index g = Ok hb g' →
     ∃ bts m fname,
       fs g !! manifestPath g = Some bts ∧ json_Unmarshal bts = Some m ∧
       goFileName (fd_proto file) (g_pathType g) "api" = Some fname ∧
       fs g' = <[manifestPath g :=
                   json_Marshal (<[filepath_Dir fname +:+ "/" +:+ CamelCase (GetString (sp_Name service))
                                   := filepath_Dir fname]> m)]> (fs g)).
Proof.
  assert (Heq : generateService file service index g =
    match serviceRoutes file service index g with
    | Ok hb g1 =>
        match goFileName (fd_proto file) (g_pathType g1) "api" with
        | None => Exit (Panic "nil pointer dereference") g1
        | Some fname =>
            match generateHandler
                    (filepath_Dir fname +:+ "/" +:+ CamelCase (GetString (sp_Name service)))
                    (filepath_Dir fname) g1 with
            | Ok _ g2 => Ok hb g2
            | Exit e g2 => Exit e g2
            end
        end
    | Exit e g1 => Exit e g1
    end).
  { unfold generateService, bind, get.
    destruct (serviceRoutes file service index g) as [hb g1|e g1]; [|done].
    by destruct (goFileName (fd_proto file) (g_pathType g1) "api"). }
  rewrite Heq. clear Heq.
  pose proof (serviceRoutes_keeps_fs file service index g) as Hfs.
  pose proof (serviceRoutes_keeps_Param file service index g) as HP.
  pose proof (serviceRoutes_keeps_pathType file service index g) as Hpt.
  destruct (serviceRoutes file service index g) as [hb g1|e g1]; simpl in Hfs, HP, Hpt.
  - assert (Hpath : manifestPath g1 = manifestPath g).
    { unfold manifestPath, Param_get. by rewrite HP. }
    unfold same in *. rewrite Hpt.
    destruct (goFileName (fd_proto file) (g_pathType g) "api") as [fname|] eqn:Hname.
    + rewrite !generateHandler_run. rewrite Hpath, Hfs.
      destruct (fs g !! manifestPath g) as [bts|] eqn:Hbts.
      * split; [done|]. destruct (json_Unmarshal bts) as [m|] eqn:Hm; [|by intros ? ? [=]].
        intros hb' g' [= <- <-]. exists bts, m, fname. by split_and!.
      * split; [|by intros ? ? [=]]. intros _. exists Fail_HandlerFileNotFound, g1. by split_and!.
    + split; [|by intros ? ? [=]]. intros _. eexists _, g1. split_and!; [done|done|].
      intros hb' g1' _ [n Hn]. unfold goFileName in Hname. rewrite Hn in Hname.
      by destruct (g_pathType g).
  - split; [|by intros ? ? [=]]. intros _. exists e, g1. split_and!; [done|done|].
    by intros ? ? [=].
Qed.

(** ** The lines of a method *)

Lemma printed_nil g : printed [] g = g.
Proof. done. Qed.

Lemma printed_app l1 l2 g : printed (l1 ++ l2) g = printed l2 (printed l1 g).
Proof. unfold printed. by rewrite fmap_app, emits_app, emits_indent. Qed.

Lemma printed_Buffer lines g :
  Buffer (printed lines g)
  = Buffer g ++ (if writeOutput g then (λ line, indent g +:+ line) <$> lines else []).
Proof. unfold printed. by rewrite emits_Buffer. Qed.

Lemma printed_same {T} (f : Generator → T) lines g :
  (∀ v g, f (set_Buffer v g) = f g) → f (printed lines g) = f g.
Proof. intros Hf. unfold printed. by apply emits_same. Qed.

Ltac printed_run :=
  unfold printed; cbn [fmap list_fmap app negb fst snd];
  repeat (first [ rewrite bind_bind | rewrite bind_P | rewrite P_emit | rewrite bind_ret ];
          cbn [negb]);
  cbn [String.concat]; emits_norm; try done.

Lemma routeBlock_run method middlewares g :
  routeBlock method middlewares g =
  match mp_Options method with
  | Some {| E_Http := Some opts |} =>
      Ok (isGetOf opts, noJSONOf opts) (printed (routeLinesOf opts middlewares) g)
  | _ => Exit Fail_HttpOptionNotFound g
  end.
Proof.
  unfold routeBlock. destruct (mp_Options method) as [[[opts|]]|]; try done.
  unfold routeLinesOf, isGetOf, noJSONOf.
  destruct (Pattern opts); rewrite ?bind_bind, ?bind_ret; printed_run.
Qed.

Lemma bindBlock_run needBind isGet bindCheck binding inType outType gec g :
  bindBlock needBind isGet bindCheck binding inType outType gec g
  = Ok tt (printed (bindLinesOf needBind isGet bindCheck binding inType outType gec) g).
Proof.
  unfold bindBlock, bindLinesOf, bindLineOf.
  destruct (bindingChoice binding) as [mth ty].
  destruct needBind, bindCheck, isGet; rewrite ?bind_bind; printed_run.
Qed.

Lemma callBlock_run noJSON methName gec g :
  callBlock noJSON methName gec g = Ok tt (printed (callLinesOf noJSON methName gec) g).
Proof.
  unfold callBlock, callLinesOf. destruct noJSON; rewrite ?bind_bind; printed_run.
Qed.

(** [generateClientMethod] as its three lookups followed by the lines
    of the method. *)
Lemma generateClientMethod_run reqServ servName method customAnnotations g :
  generateClientMethod reqServ servName method customAnnotations g =
  match inputOf method g with
  | Exit e g1 => Exit e g1
  | Ok (inType, needBind) g1 =>
      match typeName (GetString (mp_OutputType method)) g1 with
      | Exit e g2 => Exit e g2
      | Ok outType g2 =>
          match mp_Options method with
          | Some {| E_Http := Some opts |} =>
              Ok needBind
                 (printed (methodLinesOf g reqServ method customAnnotations opts needBind
                                         inType outType) g2)
          | _ => Exit Fail_HttpOptionNotFound g2
          end
      end
  end.
Proof.
  unfold generateClientMethod. rewrite bind_get. unfold bind at 1.
  destruct (inputOf method g) as [[inType needBind] g1|e g1]; [|done].
  unfold bind at 1.
  destruct (typeName (GetString (mp_OutputType method)) g1) as [outType g2|e g2]; [|done].
  unfold bind at 1. rewrite routeBlock_run.
  destruct (mp_Options method) as [[[opts|]]|]; try done.
  unfold bind at 1. rewrite bindBlock_run. unfold bind at 1. rewrite callBlock_run.
  unfold methodLinesOf. by rewrite !printed_app.
Qed.

(** ** Which lines bind the input *)

Ltac not_bindCall :=
  let Heq := fresh in
  intros ([] & [] & ? & Heq); unfold bindLineOf in Heq; cbn in Heq; discriminate Heq.

Lemma routeLine_not_bindCall verb url middlewares :
  ¬ bindCall (routeLine verb url middlewares).
Proof. unfold routeLine. case_decide; not_bindCall. Qed.

Lemma routeLinesOf_not_bindCall opts middlewares :
  Forall (λ line, ¬ bindCall line) (routeLinesOf opts middlewares).
Proof.
  unfold routeLinesOf.
  destruct (Pattern opts); repeat constructor; apply routeLine_not_bindCall.
Qed.

Lemma callLinesOf_not_bindCall noJSON methName gec :
  Forall (λ line, ¬ bindCall line) (callLinesOf noJSON methName gec).
Proof. unfold callLinesOf. destruct noJSON; repeat constructor; not_bindCall. Qed.

(** The bind block prints exactly one binding line when binding is
    needed, and none otherwise. *)
Lemma bindLinesOf_bindCall (needBind isGet bindCheck : bool) binding inType outType gec :
  if needBind return Prop then
    ∃ before after,
      bindLinesOf needBind isGet bindCheck binding inType outType gec
      = before ++ [bindLineOf isGet bindCheck binding] ++ after ∧
      Forall (λ line, ¬ bindCall line) (before ++ after)
  else Forall (λ line, ¬ bindCall line)
              (bindLinesOf needBind isGet bindCheck binding inType outType gec).
Proof.
  destruct needBind; unfold bindLinesOf.
  - exists ["input, output := " +:+ inType +:+ "{}, " +:+ outType +:+ "{}"; ""],
      ((if bindCheck then ["router.Error(ctx, " +:+ gec +:+ ", err)"; "return"; "}"] else [])
       ++ [""]).
    split; [done|]. destruct bindCheck; repeat constructor; not_bindCall.
  - repeat constructor; not_bindCall.
Qed.

Lemma methodLinesOf_bindCall g reqServ method customAnnotations opts (needBind : bool)
    inType outType :
  if needBind return Prop then
    ∃ before after,
      methodLinesOf g reqServ method customAnnotations opts needBind inType outType
      = before ++ [bindLineOf (isGetOf opts) (bindCheckOf customAnnotations)
                              (bindingOf customAnnotations)] ++ after ∧
      Forall (λ line, ¬ bindCall line) (before ++ after)
  else Forall (λ line, ¬ bindCall line)
              (methodLinesOf g reqServ method customAnnotations opts needBind inType outType).
Proof.
  unfold methodLinesOf.
  pose proof (routeLinesOf_not_bindCall opts (middlewaresOf customAnnotations)) as Hr.
  pose proof (callLinesOf_not_bindCall (noJSONOf opts) (methNameOf method) (gecOf g)) as Hc.
  pose proof (bindLinesOf_bindCall needBind (isGetOf opts) (bindCheckOf customAnnotations)
                (bindingOf customAnnotations) inType (outTypeOf reqServ outType) (gecOf g)) as Hb.
  destruct needBind.
  - destruct Hb as (before & after & -> & Hba).
    apply Forall_app in Hba as [Hbefore Hafter].
    exists (routeLinesOf opts (middlewaresOf customAnnotations) ++ before),
      (after ++ callLinesOf (noJSONOf opts) (methNameOf method) (gecOf g)).
    split.
    + by rewrite <- !(assoc_L (++)).
    + rewrite !Forall_app. by split_and!.
  - rewrite !Forall_app. by split_and!.
Qed.

(** ** The lookups of a method leave the output alone *)

Lemma typeName_keeps_Buffer str : keeps (same Buffer) (typeName str).
Proof. keeps_api. Qed.

Lemma typeName_keeps_writeOutput str : keeps (same writeOutput) (typeName str).
Proof. keeps_api. Qed.

Lemma typeName_keeps_indent str : keeps (same indent) (typeName str).
Proof. keeps_api. Qed.

Lemma inputOf_keeps_Buffer method : keeps (same Buffer) (inputOf method).
Proof. keeps_api. Qed.

Lemma inputOf_keeps_writeOutput method : keeps (same writeOutput) (inputOf method).
Proof. keeps_api. Qed.

Lemma inputOf_keeps_indent method : keeps (same indent) (inputOf method).
Proof. keeps_api. Qed.




(** A successful run of [generateClientMethod]: the lookups, then the
    lines of the method appended to the buffer. *)
Lemma generateClientMethod_Ok reqServ servName method customAnnotations g needBind g' :
  generateClientMethod reqServ servName method customAnnotations g = Ok needBind g' →
  ∃ inType g1 outType g2 opts,
    inputOf method g = Ok (inType, needBind) g1 ∧
    typeName (GetString (mp_OutputType method)) g1 = Ok outType g2 ∧
    mp_Options method = Some {| E_Http := Some opts |} ∧
    g' = printed (methodLinesOf g reqServ method customAnnotations opts needBind
                                inType outType) g2 ∧
    Buffer g' = bufferWith g (methodLinesOf g reqServ method customAnnotations opts needBind
                                            inType outType).
Proof.
  rewrite generateClientMethod_run.
  destruct (inputOf method g) as [[inType nb] g1|e g1] eqn:Hin; [|done].
  destruct (typeName (GetString (mp_OutputType method)) g1) as [outType g2|e g2] eqn:Hout;
    [|done].
  destruct (mp_Options method) as [[[opts|]]|]; try done.
  intros [= <- <-]. exists inType, g1, outType, g2, opts. split_and!; try done.
  rewrite printed_Buffer. unfold bufferWith.
  pose proof (keeps_Ok _ _ _ _ _ (inputOf_keeps_Buffer method) Hin) as HB1.
  pose proof (keeps_Ok _ _ _ _ _ (inputOf_keeps_writeOutput method) Hin) as HW1.
  pose proof (keeps_Ok _ _ _ _ _ (inputOf_keeps_indent method) Hin) as HI1.
  pose proof (keeps_Ok _ _ _ _ _ (typeName_keeps_Buffer _) Hout) as HB2.
  pose proof (keeps_Ok _ _ _ _ _ (typeName_keeps_writeOutput _) Hout) as HW2.
  pose proof (keeps_Ok _ _ _ _ _ (typeName_keeps_indent _) Hout) as HI2.
  unfold same in *. by rewrite HB2, HB1, HW2, HW1, HI2, HI1.
Qed.

(** ** Which lines open a route *)

Ltac not_routeCall :=
  let Heq := fresh in
  intros (? & ? & ? & Heq); unfold routeLine in Heq; case_decide; cbn in Heq;
  discriminate Heq.

Lemma bindLinesOf_not_routeCall needBind isGet bindCheck binding inType outType gec :
  Forall (λ line, ¬ routeCall line)
         (bindLinesOf needBind isGet bindCheck binding inType outType gec).
Proof.
  unfold bindLinesOf, bindLineOf.
  destruct needBind, bindCheck, isGet; repeat constructor; not_routeCall.
Qed.

Lemma callLinesOf_not_routeCall noJSON methName gec :
  Forall (λ line, ¬ routeCall line) (callLinesOf noJSON methName gec).
Proof. unfold callLinesOf. destruct noJSON; repeat constructor; not_routeCall. Qed.

Lemma bindLineOf_get bindCheck binding :
  bindLineOf true bindCheck binding = queryBindLine bindCheck.
Proof. done. Qed.

(** ** The binding of the input *)

(** C5: for a method with a GET pattern whose input needs binding, the
    lines printed for the method contain exactly one line that binds
    the input, and it binds from the query string
    ([ctx.ShouldBindQuery]); the [binding] directive has no influence:
    with any other value of the directive, or without it, the run ends
    in the same state. *)
Theorem get_methods_bind_from_the_query reqServ servName method customAnnotations opts url
    g g' :
  mp_Options method = Some {| E_Http := Some opts |} →
  Pattern opts = HttpRule_Get url →
  generateClientMethod reqServ servName method customAnnotations g = Ok true g' →
  (∃ before after,
     Buffer g' = bufferWith g (before ++ [queryBindLine (bindCheckOf customAnnotations)]
                                      ++ after) ∧
     Forall (λ line, ¬ bindCall line) (before ++ after)) ∧
  (∀ customAnnotations',
     (∀ key, key ≠ "binding" → customAnnotations' !! key = customAnnotations !! key) →
     generateClientMethod reqServ servName method customAnnotations' g = Ok true g').
Proof.
  intros Hopts Hget Hrun. split.
  - apply generateClientMethod_Ok in Hrun
      as (inType & g1 & outType & g2 & opts' & _ & _ & Hopts' & _ & HB).
    assert (opts' = opts) as -> by congruence.
    pose proof (methodLinesOf_bindCall g reqServ method customAnnotations opts true
                  inType outType) as (before & after & Hlines & Hno).
    exists before, after. split; [|done]. rewrite HB, Hlines.
    unfold isGetOf. by rewrite Hget, bindLineOf_get.
  - intros customAnnotations' Hsame. rewrite generateClientMethod_run in Hrun |- *.
    destruct (inputOf method g) as [[inType nb] g1|e g1]; [|done].
    destruct (typeName (GetString (mp_OutputType method)) g1) as [outType g2|e g2]; [|done].
    rewrite Hopts in Hrun |- *. injection Hrun as -> <-. f_equal. f_equal.
    unfold methodLinesOf, middlewaresOf, bindCheckOf, isGetOf.
    rewrite !Hsame by done. rewrite Hget. unfold bindLinesOf. by rewrite !bindLineOf_get.
Qed.


(** ** Methods without a GET or POST pattern *)

(** C1, what the code does: once the types of the method are looked
    up, a method without the [google.api.http] option ends the run with
    the option-not-found message and nothing printed; a method whose
    option carries a pattern other than GET and POST does not end the
    run: the body of the closure and its closing line are printed, with
    no line that opens a route. *)
Theorem methods_without_get_or_post reqServ servName method customAnnotations g
    inType needBind g1 outType g2 :
  inputOf method g = Ok (inType, needBind) g1 →
  typeName (GetString (mp_OutputType method)) g1 = Ok outType g2 →
  match mp_Options method with
  | Some {| E_Http := Some opts |} =>
      (∀ url, Pattern opts ≠ HttpRule_Get url) →
      (∀ url, Pattern opts ≠ HttpRule_Post url) →
      ∃ lines g',
        generateClientMethod reqServ servName method customAnnotations g = Ok needBind g' ∧
        Buffer g' = bufferWith g lines ∧
        Forall (λ line, ¬ routeCall line) lines ∧
        "})" ∈ lines
  | _ =>
      ∃ g',
        generateClientMethod reqServ servName method customAnnotations g
        = Exit Fail_HttpOptionNotFound g' ∧
        Buffer g' = Buffer g
  end.
Proof.
  intros Hin Hout.
  pose proof (keeps_Ok _ _ _ _ _ (inputOf_keeps_Buffer method) Hin) as HB1.
  pose proof (keeps_Ok _ _ _ _ _ (typeName_keeps_Buffer _) Hout) as HB2.
  unfold same in *.
  assert (Hnone : mp_Options method = None ∨ mp_Options method = Some {| E_Http := None |} →
                  ∃ g', generateClientMethod reqServ servName method customAnnotations g
                        = Exit Fail_HttpOptionNotFound g' ∧ Buffer g' = Buffer g).
  { intros Hopt. exists g2. rewrite generateClientMethod_run, Hin, Hout.
    split; [by destruct Hopt as [-> | ->]|congruence]. }
  destruct (mp_Options method) as [[[opts|]]|] eqn:Hopts; [|by apply Hnone; right|by apply Hnone; left].
  clear Hnone. intros Hget Hpost.
  destruct (generateClientMethod reqServ servName method customAnnotations g)
    as [nb g'|e g'] eqn:Hrun.
  - pose proof Hrun as Hrun'. rewrite generateClientMethod_run, Hin, Hout, Hopts in Hrun'.
    injection Hrun' as -> _.
    apply generateClientMethod_Ok in Hrun
      as (inType' & g1' & outType' & g2' & opts' & _ & _ & Hopts' & _ & HB).
    eexists _, g'. split_and!; [done|exact HB| |].
    + assert (opts' = opts) as -> by congruence.
      unfold methodLinesOf, routeLinesOf. rewrite !Forall_app. split_and!.
      * destruct (Pattern opts) eqn:Hp;
          first [by destruct (Hget url) | by destruct (Hpost url) | constructor].
      * apply bindLinesOf_not_routeCall.
      * apply callLinesOf_not_routeCall.
    + unfold methodLinesOf, callLinesOf. rewrite !elem_of_app. right. right. right.
      apply elem_of_cons. by left.
  - by rewrite generateClientMethod_run, Hin, Hout, Hopts in Hrun.
Qed.

(** ** The renaming loop of [GoPackageName] *)

Lemma pretty_N_go_nonempty x s : s ≠ "" → pretty_N_go x s ≠ "".
Proof.
  revert s. induction (N.lt_wf_0 x) as [x _ IH]; intros s Hs.
  destruct (decide (x = 0%N)) as [->|Hx]; [by rewrite pretty_N_go_0|].
  rewrite pretty_N_go_step by lia. apply IH; [apply N.div_lt; lia|done].
Qed.

Lemma strconv_Itoa_nonempty (i : nat) : strconv_Itoa i ≠ "".
Proof.
  unfold strconv_Itoa, pretty, pretty_nat, pretty, pretty_N.
  case_decide; [done|]. rewrite pretty_N_go_step by lia. by apply pretty_N_go_nonempty.
Qed.

Lemma string_app_empty_r (s : string) : s +:+ "" = s.
Proof.
  induction s as [|c s IH]; [done|].
  change (String c (s +:+ "") = String c s). by rewrite IH.
Qed.

Lemma candidate_inj orig : Inj (=) (=) (candidate orig).
Proof.
  intros [|j] [|k] Heq; unfold candidate in Heq.
  - done.
  - rewrite <- (string_app_empty_r orig) in Heq at 1.
    apply String.app_inj in Heq. by destruct (strconv_Itoa_nonempty (S k)).
  - rewrite <- (string_app_empty_r orig) in Heq at 2.
    apply String.app_inj in Heq. by destruct (strconv_Itoa_nonempty (S j)).
  - apply String.app_inj in Heq. by apply pretty_nat_inj in Heq.
Qed.

Lemma freshName_None fuel used orig : ∀ k,
  freshName fuel used orig (candidate orig k) (S k) = None →
  ∀ j, k ≤ j < k + fuel → nameTaken used (candidate orig j) = true.
Proof.
  induction fuel as [|fuel IH]; intros k Hnone j Hj; [lia|].
  simpl in Hnone. destruct (nameTaken used (candidate orig k)) eqn:Hk; [|done].
  destruct (decide (j = k)) as [->|Hne]; [done|].
  apply (IH (S k)); [exact Hnone|lia].
Qed.

Lemma freshName_Some fuel used orig : ∀ name i r,
  freshName fuel used orig name i = Some r → nameTaken used r = false.
Proof.
  induction fuel as [|fuel IH]; intros name i r Hr; [done|].
  simpl in Hr. destruct (nameTaken used name) eqn:Hk.
  - by apply IH in Hr.
  - by injection Hr as <-.
Qed.

Lemma nameTaken_elem_of used name :
  nameTaken used name = true →
  name ∈ (map_to_list used).*1 ++ isGoPredeclaredIdentifier.
Proof.
  unfold nameTaken. intros [Hu|Hp]%orb_true_iff; apply elem_of_app.
  - left. destruct (used !! name) as [b|] eqn:Hn; [|done].
    apply list_elem_of_fmap. exists (name, b). split; [done|].
    by apply elem_of_map_to_list.
  - right. by apply bool_decide_eq_true in Hp.
Qed.

(** The loop of [GoPackageName] ends: within [freshName_fuel] tests it
    reaches a name that is neither used nor predeclared. *)
Lemma freshName_total used orig :
  ∃ name, freshName (freshName_fuel used) used orig orig 1 = Some name ∧
          nameTaken used name = false.
Proof.
  destruct (freshName (freshName_fuel used) used orig orig 1) as [name|] eqn:Hrun.
  - exists name. split; [done|]. by apply freshName_Some in Hrun.
  - exfalso.
    pose proof (freshName_None (freshName_fuel used) used orig 0 Hrun) as Htaken.
    set (tried := candidate orig <$> seq 0 (freshName_fuel used)).
    assert (Hsub : tried ⊆+ (map_to_list used).*1 ++ isGoPredeclaredIdentifier).
    { apply NoDup_submseteq.
      - apply (@NoDup_fmap_2 _ _ _ (candidate_inj orig)), NoDup_seq.
      - intros name (j & -> & Hj%elem_of_seq)%list_elem_of_fmap.
        apply nameTaken_elem_of, Htaken. lia. }
    apply submseteq_length in Hsub. unfold tried in Hsub.
    rewrite length_fmap, length_seq, length_app, length_fmap, length_map_to_list in Hsub.
    unfold freshName_fuel in Hsub. rewrite Nat.add_1_r in Hsub.
    by apply Nat.nle_succ_diag_l in Hsub.
Qed.

(** [GoPackageName] always returns a name. *)
Lemma GoPackageName_Ok importPath g :
  ∃ name g', GoPackageName_ importPath g = Ok name g'.
Proof.
  unfold GoPackageName_. rewrite bind_get.
  destruct (packageNames g !! importPath) as [name|]; [by eexists _, _|].
  destruct (freshName_total (usedPackageNames g) (cleanPackageName (baseName importPath)))
    as (name & -> & _).
  by eexists _, _.
Qed.

(** * Further properties of the generator *)

(** ** The stages before generation *)

Lemma BuildTypeNameMap_keeps {T} (f : Generator → T) :
  (∀ v g, f (set_typeNameToObject v g) = f g) → keeps (same f) BuildTypeNameMap.
Proof. intros Hf g. rewrite BuildTypeNameMap_run. simpl. apply Hf. Qed.

Lemma resolve_keeps {T} (f : Generator → T) :
  keeps (same f) wrapStage → keeps (same f) SetPackageNames →
  (∀ v g, f (set_typeNameToObject v g) = f g) →
  keeps (same f) resolve.
Proof.
  intros Hw Hs Hf. unfold resolve.
  apply keeps_bind; [exact _|exact Hw|intros _].
  apply keeps_bind; [exact _|exact Hs|intros _].
  by apply BuildTypeNameMap_keeps.
Qed.

(** X1: the stages that run before generation -- the parameters,
    [WrapTypes], [SetPackageNames] and [BuildTypeNameMap] -- write
    nothing: whether they end or exit, the response, the output buffer
    and the disk are as they were. *)
Theorem resolve_writes_no_output g :
  Response (final (resolve g)) = Response g ∧
  Buffer (final (resolve g)) = Buffer g ∧
  fs (final (resolve g)) = fs g.
Proof.
  split_and!.
  - by apply (resolve_keeps Response wrapStage_keeps_Response SetPackageNames_keeps_Response).
  - by apply (resolve_keeps Buffer wrapStage_keeps_Buffer SetPackageNames_keeps_Buffer).
  - by apply (resolve_keeps fs wrapStage_keeps_fs SetPackageNames_keeps_fs).
Qed.

Lemma wrapNested_common me file l :
  Forall (λ dp, ∀ sl parent index,
            Forall (λ d, d_common d = file) sl →
            Forall (λ d, d_common d = file) (wrapThisDescriptor sl dp parent file index)) l →
  ∀ sl i, Forall (λ d, d_common d = file) sl →
          Forall (λ d, d_common d = file) (wrapNested me file sl i l).
Proof.
  induction 1 as [|x l Hx _ IH]; intros sl i Hsl; [done|].
  cbn [wrapNested]. by apply IH, Hx.
Qed.

Lemma wrapThisDescriptor_common file dp : ∀ sl parent index,
  Forall (λ d, d_common d = file) sl →
  Forall (λ d, d_common d = file) (wrapThisDescriptor sl dp parent file index).
Proof.
  induction dp as [dp IH] using DescriptorProto_nested_ind. intros sl parent index Hsl.
  rewrite wrapThisDescriptor_eq. apply wrapNested_common; [done|].
  apply Forall_app. split; [done|]. by repeat constructor.
Qed.

Lemma wrapDescriptors_loop_common file l : ∀ sl i,
  Forall (λ d, d_common d = file) sl →
  Forall (λ d, d_common d = file) (wrapDescriptors_loop sl i l file).
Proof.
  induction l as [|x l IH]; intros sl i Hsl; [done|].
  cbn [wrapDescriptors_loop]. by apply IH, wrapThisDescriptor_common.
Qed.

Lemma wrapDescriptors_common file d : d ∈ wrapDescriptors file → d_common d = file.
Proof.
  revert d. apply Forall_forall. unfold wrapDescriptors.
  by apply wrapDescriptors_loop_common.
Qed.

(** X2: [WrapTypes] wraps the protos of the request in order, and the
    [desc] slice of a wrapped file holds a descriptor for every message
    that the file declares, at any depth of nesting: a top-level message
    has no parent, a nested message has one, and each descriptor refers
    to its file. *)
Theorem every_message_is_wrapped g g' k fd :
  WrapTypes g = Ok tt g' → allFiles g' !! k = Some fd →
  length (allFiles g') = length (ProtoFile (Request g)) ∧
  ProtoFile (Request g) !! k = Some (fd_proto fd) ∧
  ∀ depth m, declaredMessage (fd_proto fd) depth m →
    ∃ d, d ∈ desc fd ∧ wrapsAt None depth m d ∧
         c_file (d_common d) = k ∧ c_proto (d_common d) = fd_proto fd.
Proof.
  intros HW Hfd.
  destruct (WrapTypes_Ok _ _ HW) as ([_ _ _ Hlen Hfiles _] & _ & _ & _).
  destruct (lookup_lt_is_Some_2 (ProtoFile (Request g)) k) as [f Hf].
  { rewrite <- Hlen. by eapply lookup_lt_Some. }
  destruct (Hfiles k f Hf) as (fd' & Hfd' & Hp & _ & Hdesc).
  assert (fd' = fd) as -> by congruence.
  split_and!; [done|by rewrite Hp|].
  intros depth m Hdecl.
  set (c := {| c_file := k; c_proto := f; c_importPath := _ |}) in Hdesc.
  destruct (wrapDescriptors_covers c depth m) as (d0 & Hd0 & Hm0 & Hpar0 & Hpos0).
  { simpl. by rewrite <- Hp. }
  assert (Hcommon : ∀ d1, d1 ∈ wrapDescriptors c → d_common d1 = c)
    by apply wrapDescriptors_common.
  pose proof (Hcommon d0 Hd0) as Hc0.
  apply list_elem_of_lookup in Hd0 as (a & Ha).
  destruct (Forall2_lookup_l _ _ _ _ _ Hdesc Ha) as (d & Hd & Hdc & Hdp & Hdpar & _).
  exists d. split_and!.
  - by eapply list_elem_of_lookup_2.
  - split_and!; [congruence| |].
    + intros Hz. rewrite Hdpar. by apply Hpar0.
    + intros Hz. rewrite Hdpar. by apply Hpos0.
  - by rewrite Hdc, Hc0.
  - by rewrite Hdc, Hc0, Hp.
Qed.

(** ** Package names *)

(** X3: [GoPackageName] always returns a name and records it for the
    import path. A path met for the first time gets a name that was
    not in use and is not a predeclared identifier, and the name is in
    use afterwards; a second call returns the same name and changes
    nothing. *)
Theorem GoPackageName_returns_a_fresh_name importPath g :
  ∃ name g',
    GoPackageName_ importPath g = Ok name g' ∧
    packageNames g' !! importPath = Some name ∧
    (packageNames g !! importPath = None →
       nameTaken (usedPackageNames g) name = false ∧
       usedPackageNames g' !! name = Some true) ∧
    GoPackageName_ importPath g' = Ok name g'.
Proof.
  assert (Hknown : ∀ name g0, packageNames g0 !! importPath = Some name →
                              GoPackageName_ importPath g0 = Ok name g0).
  { intros name g0 Hn. unfold GoPackageName_. rewrite bind_get. by rewrite Hn. }
  destruct (packageNames g !! importPath) as [name|] eqn:Hn.
  - exists name, g. split_and!; [by apply Hknown|done|done|by apply Hknown].
  - destruct (freshName_total (usedPackageNames g) (cleanPackageName (baseName importPath)))
      as (name & Hname & Hfresh).
    eexists name, _. split_and!.
    + unfold GoPackageName_. rewrite bind_get, Hn, Hname. reflexivity.
    + simpl. by rewrite lookup_insert_eq.
    + intros _. split; [done|]. simpl. by rewrite lookup_insert_eq.
    + apply Hknown. simpl. by rewrite lookup_insert_eq.
Qed.

(** ** What a service does to the disk *)

Lemma generateService_run file service index g :
  generateService file service index g =
  match serviceRoutes file service index g with
  | Ok hb g1 =>
      match goFileName (fd_proto file) (g_pathType g1) "api" with
      | None => Exit (Panic "nil pointer dereference") g1
      | Some fname =>
          match generateHandler
                  (filepath_Dir fname +:+ "/" +:+ CamelCase (GetString (sp_Name service)))
                  (filepath_Dir fname) g1 with
          | Ok _ g2 => Ok hb g2
          | Exit e g2 => Exit e g2
          end
      end
  | Exit e g1 => Exit e g1
  end.
Proof.
  unfold generateService, bind, get.
  destruct (serviceRoutes file service index g) as [hb g1|e g1]; [|done].
  by destruct (goFileName (fd_proto file) (g_pathType g1) "api").
Qed.

Lemma serviceRoutes_keeps_Response file service index :
  keeps (same Response) (serviceRoutes file service index).
Proof. keeps_api. Qed.

(** X4: the manifest is the only file that [generateService] touches:
    whether the run ends or exits, every other path of the disk holds
    what it held, and the response is as it was. *)
Theorem generateService_touches_only_the_manifest file service index g p :
  p ≠ manifestPath g →
  fs (final (generateService file service index g)) !! p = fs g !! p ∧
  Response (final (generateService file service index g)) = Response g.
Proof.
  intros Hp. rewrite generateService_run.
  pose proof (serviceRoutes_keeps_fs file service index g) as Hfs.
  pose proof (serviceRoutes_keeps_Param file service index g) as HP.
  pose proof (serviceRoutes_keeps_Response file service index g) as HR.
  unfold same in *.
  destruct (serviceRoutes file service index g) as [hb g1|e g1]; simpl in Hfs, HP, HR;
    [|simpl; by rewrite Hfs, HR].
  assert (Hpath : manifestPath g1 = manifestPath g).
  { unfold manifestPath, Param_get. by rewrite HP. }
  destruct (goFileName (fd_proto file) (g_pathType g1) "api") as [fname|];
    [|simpl; by rewrite Hfs, HR].
  rewrite generateHandler_run, Hpath.
  destruct (fs g1 !! manifestPath g) as [bts|]; [|simpl; by rewrite Hfs, HR].
  destruct (json_Unmarshal bts) as [m|]; [|simpl; by rewrite Hfs, HR].
  simpl. rewrite lookup_insert_ne by done. by rewrite Hfs, HR.
Qed.

(** X5: a manifest that does not decode ends the service, once its
    routes are printed, with the content-error message; the disk is as
    it was. *)
Theorem malformed_manifest_ends_the_service file service index g bts hb g1 :
  fs g !! manifestPath g = Some bts → json_Unmarshal bts = None →
  serviceRoutes file service index g = Ok hb g1 →
  is_Some (Name (fd_proto file)) →
  generateService file service index g = Exit Fail_HandlerContentError g1 ∧ fs g1 = fs g.
Proof.
  intros Hbts Hbad Hroutes [name Hname].
  pose proof (keeps_Ok _ _ _ _ _ (serviceRoutes_keeps_fs file service index) Hroutes) as Hfs.
  pose proof (keeps_Ok _ _ _ _ _ (serviceRoutes_keeps_Param file service index) Hroutes) as HP.
  unfold same in *. split; [|done].
  rewrite generateService_run, Hroutes.
  assert (Hpath : manifestPath g1 = manifestPath g).
  { unfold manifestPath, Param_get. by rewrite HP. }
  destruct (goFileName (fd_proto file) (g_pathType g1) "api") as [fname|] eqn:Hgo.
  - by rewrite generateHandler_run, Hpath, Hfs, Hbts, Hbad.
  - unfold goFileName in Hgo. rewrite Hname in Hgo. by destruct (g_pathType g1).
Qed.

(** ** Types that are not in the index *)


(** ** The parameters *)

(** X7: when [CommandLineParameters] returns, [Param] holds the pairs
    of the parameter string, [ImportMap] holds exactly the keys that
    start with [M], without the [M]; [import_path] sets the package
    import path; and a non-empty [import_prefix] is the import prefix,
    whatever [repo] is. *)
Theorem parameters_are_applied parameter g g' :
  CommandLineParameters parameter g = Ok tt g' →
  Param g' = paramsOf parameter ∧
  (∀ n, ImportMap g' !! n = paramsOf parameter !! String "M" n) ∧
  PackageImportPath g'
  = default (PackageImportPath g) (paramsOf parameter !! "import_path") ∧
  (∀ v, paramsOf parameter !! "import_prefix" = Some v → v ≠ "" → ImportPrefix g' = v).
Proof.
  intros Hrun.
  destruct (CommandLineParameters_run parameter g)
    as [(v & g1 & _ & _ & Hexit)|(_ & g1 & Hok & HP & HI & HPI & _ & HM & _)];
    simpl in *; [congruence|].
  assert (g1 = g') as -> by congruence.
  split_and!; [done|done|done|].
  intros v Hv Hne. rewrite HI, Hv. simpl. by rewrite decide_False.
Qed.

End Proofs.

(** * The properties on concrete requests *)

Section Concrete.
Local Existing Instance sampleExternals.

(** C9: there is no file and no kind of output for which the two path
    types give different names. *)
Lemma paths_never_changes_a_name :
  ¬ ∃ (d : FileDescriptorProto) (typ : string),
      goFileName d pathTypeImport typ ≠ goFileName d pathTypeSourceRelative typ.
Proof. intros (d & typ & Hne). apply Hne. apply goFileName_pathType. Qed.

(** C10 on the parameters of the driver script: the prefix is the
    repository path followed by a slash. *)
Lemma default_import_prefix_witness :
  ∃ g', CommandLineParameters "repo=example.com/app,path=out" (New user_request ∅ ∅) = Ok tt g'
        ∧ ImportPrefix g' = "example.com/app/".
Proof.
  eexists. split; [vm_compute; reflexivity|].
  refine (eq_trans (proj1 (default_import_prefix_is_repo_slash
            "repo=example.com/app,path=out" user_request ∅ ∅ _ _ _)) _).
  - vm_compute. reflexivity.
  - vm_compute. reflexivity.
  - vm_compute. reflexivity.
Defined.

(** C2, counterexample: the message [.shop.Item] is declared by two
    files; the run does not exit, and the lookup of the name under which
    the message of the first file was inserted returns the message of
    the second file. *)
Lemma duplicate_type_name_replaces_silently :
  ∃ g' d0 d1,
    resolve (New shop_request ∅ ∅) = Ok tt g' ∧
    indexEntries (allFiles g') !! 0 = Some (".shop.Item", ObjDescriptor d0) ∧
    c_file (d_common d0) = 0 ∧
    c_file (d_common d1) = 1 ∧
    ObjectNamed ".shop.Item" g' = Ok (ObjDescriptor d1) g'.
Proof.
  eexists _, _, _. split_and!.
  - vm_compute. reflexivity.
  - vm_compute. reflexivity.
  - reflexivity.
  - shelve.
  - vm_compute. reflexivity.
  Unshelve. reflexivity.
Qed.

(** C7 on a request that selects a file of package [shop] and a file of
    package [users]. *)
Lemma inconsistent_packages_witness :
  ∃ e g', resolve (New mixed_request ∅ ∅) = Exit e g' ∧ inconsistency e ∧
          Response g' = [] ∧ Buffer g' = [] ∧ fs g' = ∅.
Proof.
  eapply inconsistent_packages_abort.
  - vm_compute. reflexivity.
  - apply (list_elem_of_lookup_2 _ 0). vm_compute. reflexivity.
  - apply (list_elem_of_lookup_2 _ 1). vm_compute. reflexivity.
  - right. vm_compute. discriminate.
Defined.


(** C4, counterexample: [user/user.proto] imports [common.proto]
    publicly; the message [Deep], nested in the message [Nothing] of
    [common.proto], is among the imported descriptors of
    [user/user.proto]. *)
Lemma nested_message_is_reexported :
  ∃ g' fd id d p,
    wrapStage (New user_request ∅ ∅) = Ok tt g' ∧
    allFiles g' !! 1 = Some fd ∧
    Name (fd_proto fd) = Some "user/user.proto" ∧
    imp fd !! 1 = Some id ∧
    o id = ObjDescriptor d ∧
    d_proto d = message "Deep" [] [] ∧
    d_parent d = Some p ∧
    d_proto p = message "Nothing" [] [message "Deep" [] []].
Proof.
  eexists _, _, _, _, _. split_and!.
  - vm_compute. reflexivity.
  - vm_compute. reflexivity.
  - reflexivity.
  - vm_compute. reflexivity.
  - reflexivity.
  - reflexivity.
  - reflexivity.
  - reflexivity.
Qed.

(** C4 on [user/user.proto], which imports [common.proto] publicly. *)
Lemma public_imports_reexport_witness :
  ∃ g' fd,
    WrapTypes (New user_request ∅ ∅) = Ok tt g' ∧
    allFiles g' !! 1 = Some fd ∧
    ∃ dfs,
      Forall2 (publicDependencyFile (allFiles g') (allFilesByName g') fd)
              (PublicDependency (fd_proto fd)) dfs ∧
      imp fd = concat (importedFrom (commonOf 1 fd) <$> dfs) ∧
      (∀ id, id ∈ imp fd ↔
         i_common id = commonOf 1 fd ∧
         ∃ df, df ∈ dfs ∧
           ((∃ d, o id = ObjDescriptor d ∧ d ∈ desc df ∧ MapEntry d = false) ∨
            (∃ e, o id = ObjEnum e ∧ e ∈ enum df) ∨
            (∃ x, o id = ObjExtension x ∧ x ∈ ext df))) ∧
      (∀ df depth m,
         df ∈ dfs → declaredMessage (fd_proto df) depth m → dp_MapEntry m = false →
         ∃ d, d ∈ desc df ∧ wrapsAt None depth m d ∧
              {| i_common := commonOf 1 fd; o := ObjDescriptor d |} ∈ imp fd).
Proof.
  set (g' := final (WrapTypes (New user_request ∅ ∅))).
  assert (Hrun : WrapTypes (New user_request ∅ ∅) = Ok tt g') by (vm_compute; reflexivity).
  assert (Hfd : allFiles g' !! 1 = Some (fileAt 1 g')) by (vm_compute; reflexivity).
  exists g', (fileAt 1 g'). split; [exact Hrun|]. split; [exact Hfd|].
  exact (public_imports_reexport _ _ 1 _ Hrun Hfd).
Defined.

(** C3, counterexample: on a disk without [out/handler.json] the
    service of [orders/orders.proto] is not generated: the run exits
    with the file-not-found message, and the disk is still empty. *)
Lemma absent_manifest_ends_the_run :
  ∃ g',
    (resolve ;;; beginApiFile 1 true) (New orders_request ∅ ∅) = Ok tt (ordersApi ∅) ∧
    allFiles (ordersApi ∅) !! 1 = Some (fileAt 1 (ordersApi ∅)) ∧
    fs (ordersApi ∅) = ∅ ∧
    generateService (fileAt 1 (ordersApi ∅)) orders_service 0 (ordersApi ∅)
    = Exit Fail_HandlerFileNotFound g' ∧
    fs g' = ∅.
Proof.
  eexists. split_and!.
  - vm_compute. reflexivity.
  - vm_compute. reflexivity.
  - reflexivity.
  - vm_compute. reflexivity.
  - reflexivity.
Qed.

(** C3 on a disk with the empty manifest that the driver script
    writes: the run goes on, and the manifest holds the entry of the
    service. *)
Lemma manifest_is_updated_witness :
  ∃ hb g',
    generateService (fileAt 1 (ordersApi {["out/handler.json" := "{}"]})) orders_service 0
                    (ordersApi {["out/handler.json" := "{}"]}) = Ok hb g' ∧
    fs g' = {["out/handler.json" := "{" +:+ quoted "orders/Orders" +:+ ":"
                                        +:+ quoted "orders" +:+ "}"]}.
Proof.
  set (st := ordersApi {["out/handler.json" := "{}"]}).
  set (r := generateService (fileAt 1 st) orders_service 0 st).
  set (g' := final r).
  assert (Hrun : r = Ok true g') by (vm_compute; reflexivity).
  exists true, g'. split; [exact Hrun|].
  destruct (proj2 (manifest_is_required_and_updated (fileAt 1 st) orders_service 0 st)
              true g' Hrun) as (bts & m & fname & Hbts & Hm & Hname & Hfs).
  rewrite Hfs.
  vm_compute in Hbts. injection Hbts as <-.
  vm_compute in Hm. injection Hm as <-.
  vm_compute in Hname. injection Hname as <-.
  vm_compute. reflexivity.
Defined.

(** C5 on the GET method of the service of [orders/orders.proto], with
    the directive [binding:form]: the input is bound from the query
    string, as it is without the directive. *)
Lemma get_methods_bind_from_the_query_witness :
  ∃ g',
    generateClientMethod "orders" "Orders" get_method {["binding" := "form"]} (ordersApi ∅)
    = Ok true g' ∧
    (∃ before after,
       Buffer g' = bufferWith (ordersApi ∅)
                     (before ++ ["if err := ctx.ShouldBindQuery(&input); err != nil {"]
                             ++ after) ∧
       Forall (λ line, ¬ bindCall line) (before ++ after)) ∧
    generateClientMethod "orders" "Orders" get_method ∅ (ordersApi ∅) = Ok true g'.
Proof.
  set (st := ordersApi ∅).
  set (g' := final (generateClientMethod "orders" "Orders" get_method
                      {["binding" := "form"]} st)).
  assert (Hrun : generateClientMethod "orders" "Orders" get_method
                   {["binding" := "form"]} st = Ok true g') by (vm_compute; reflexivity).
  destruct (get_methods_bind_from_the_query "orders" "Orders" get_method
              {["binding" := "form"]} _ "/v1/order" st g' eq_refl eq_refl Hrun)
    as [Hlines Hany].
  exists g'. split_and!.
  - exact Hrun.
  - exact Hlines.
  - apply Hany. intros key Hkey. by rewrite lookup_empty, lookup_singleton_ne.
Defined.



(** C1 on a method with a PUT pattern: the run goes on; the closure is
    printed, and no line opens a route. *)
Lemma put_method_prints_no_route :
  ∃ lines g',
    generateClientMethod "orders" "Orders" replace_method ∅ (ordersApi ∅) = Ok true g' ∧
    Buffer g' = bufferWith (ordersApi ∅) lines ∧
    Forall (λ line, ¬ routeCall line) lines ∧
    "})" ∈ lines.
Proof.
  set (st := ordersApi ∅).
  set (g1 := final (inputOf replace_method st)).
  set (g2 := final (typeName ".orders.Order" g1)).
  assert (Hin : inputOf replace_method st = Ok ("Order", true) g1)
    by (vm_compute; reflexivity).
  assert (Hout : typeName (GetString (mp_OutputType replace_method)) g1 = Ok "Order" g2)
    by (vm_compute; reflexivity).
  apply (methods_without_get_or_post "orders" "Orders" replace_method ∅ st
           "Order" true g1 "Order" g2 Hin Hout).
  - by intros url.
  - by intros url.
Defined.

(** X2 on the message [Deep], nested in the message [Nothing] of
    [common.proto]. *)
Lemma every_message_is_wrapped_witness :
  ∃ g' fd,
    WrapTypes (New user_request ∅ ∅) = Ok tt g' ∧ allFiles g' !! 0 = Some fd ∧
    ∃ d, d ∈ desc fd ∧ wrapsAt None 1 (message "Deep" [] []) d ∧
         c_file (d_common d) = 0 ∧ c_proto (d_common d) = fd_proto fd.
Proof.
  set (g' := final (WrapTypes (New user_request ∅ ∅))).
  assert (Hrun : WrapTypes (New user_request ∅ ∅) = Ok tt g') by (vm_compute; reflexivity).
  assert (Hfd : allFiles g' !! 0 = Some (fileAt 0 g')) by (vm_compute; reflexivity).
  exists g', (fileAt 0 g'). split; [exact Hrun|]. split; [exact Hfd|].
  destruct (every_message_is_wrapped _ _ 0 _ Hrun Hfd) as (_ & _ & Hcov).
  apply Hcov. exists (message "Nothing" [] [message "Deep" [] []]). split.
  - apply (list_elem_of_lookup_2 _ 0). vm_compute. reflexivity.
  - apply (within_nested _ (message "Deep" [] [])); [|constructor].
    apply (list_elem_of_lookup_2 _ 0). reflexivity.
Defined.

(** X4 on a disk that holds the manifest and a second file. *)
Lemma generateService_touches_only_the_manifest_witness :
  ∃ g',
    g' = final (generateService
                  (fileAt 1 (ordersApi {["out/handler.json" := "{}"; "out/notes.txt" := "keep"]}))
                  orders_service 0
                  (ordersApi {["out/handler.json" := "{}"; "out/notes.txt" := "keep"]})) ∧
    fs g' !! "out/notes.txt" = Some "keep" ∧ Response g' = [].
Proof.
  set (st := ordersApi {["out/handler.json" := "{}"; "out/notes.txt" := "keep"]}).
  eexists. split; [reflexivity|].
  destruct (generateService_touches_only_the_manifest (fileAt 1 st) orders_service 0 st
              "out/notes.txt") as [Hfs HR].
  { intros Heq. vm_compute in Heq. discriminate Heq. }
  rewrite Hfs, HR. split; vm_compute; reflexivity.
Defined.

(** X5 on a manifest that is not a JSON object. *)
Lemma malformed_manifest_witness :
  ∃ g1,
    generateService (fileAt 1 (ordersApi {["out/handler.json" := "oops"]})) orders_service 0
                    (ordersApi {["out/handler.json" := "oops"]})
    = Exit Fail_HandlerContentError g1 ∧
    fs g1 = fs (ordersApi {["out/handler.json" := "oops"]}).
Proof.
  set (st := ordersApi {["out/handler.json" := "oops"]}).
  set (g1 := final (serviceRoutes (fileAt 1 st) orders_service 0 st)).
  assert (Hroutes : serviceRoutes (fileAt 1 st) orders_service 0 st = Ok true g1)
    by (vm_compute; reflexivity).
  exists g1.
  apply (malformed_manifest_ends_the_service (fileAt 1 st) orders_service 0 st "oops" true g1).
  - vm_compute. reflexivity.
  - vm_compute. reflexivity.
  - exact Hroutes.
  - exists "orders/orders.proto". vm_compute. reflexivity.
Defined.


(** X7 on a parameter string with an override, an import path and an
    import prefix. *)
Lemma parameters_are_applied_witness :
  ∃ g',
    CommandLineParameters "Mm.proto=over/ride,import_path=quux/bar,import_prefix=pre/,repo=r"
                          (New precedence_request ∅ ∅) = Ok tt g' ∧
    ImportMap g' !! "m.proto" = Some "over/ride" ∧
    PackageImportPath g' = "quux/bar" ∧
    ImportPrefix g' = "pre/".
Proof.
  set (parameter := "Mm.proto=over/ride,import_path=quux/bar,import_prefix=pre/,repo=r").
  set (g' := final (CommandLineParameters parameter (New precedence_request ∅ ∅))).
  assert (Hrun : CommandLineParameters parameter (New precedence_request ∅ ∅) = Ok tt g')
    by (vm_compute; reflexivity).
  destruct (parameters_are_applied parameter _ g' Hrun) as (_ & HM & HP & HI).
  exists g'. split_and!.
  - exact Hrun.
  - rewrite HM. vm_compute. reflexivity.
  - rewrite HP. vm_compute. reflexivity.
  - apply HI; [vm_compute; reflexivity|discriminate].
Defined.

End Concrete.
